(** * GPTProto docs tool: index store and query engine

    A shallow embedding of [src/tools/gptproto-docs.ts]: the index
    acquisition and caching functions ([fetchRemoteIndex],
    [loadCachedIndex], [loadIndex], [loadIndexSync]) and the three query
    functions ([searchDocs], [getDocContent], [listApis]).

    The module variables [cachedIndex] and [lastFetchTime], the two index
    files and the cache directory form an explicit [World]; every function
    that touches them is a computation in the monad [M], which threads the
    world, collects the I/O events it performs, and may throw.

    Around them: [handler] of the tool, and of [src/index.ts] the handler
    of the resources, [parseToolArgs] and [zodSchemaToJsonSchema]; of the
    index builder ([scripts/build-index.ts] and its standalone twin)
    [parseDocsJson], [parsePathMetadata] and the loop of [buildIndex]. *)

From Stdlib Require Import String Ascii List ZArith Lia Bool Arith.
From Stdlib Require Import Permutation Sorted DecimalString.
Import ListNotations.

Local Open Scope string_scope.
Local Open Scope Z_scope.

Set Warnings "-register-all".

(** ** The JavaScript primitives the code relies on *)

Module JS.

(** Strings are sequences of code units; the model keeps the code units
    below 256, one [ascii] each. *)

Definition unit_in (lo hi : N) (c : ascii) : bool :=
  let n := N_of_ascii c in (N.leb lo n && N.leb n hi)%bool.

(** [String.prototype.toLowerCase] on one code unit: A-Z, and the
    capital letters of the range 192-222 (all but the sign at 215). *)
Definition lowerUnit (c : ascii) : ascii :=
  if (unit_in 65 90 c || unit_in 192 214 c || unit_in 216 222 c)%bool
  then ascii_of_N (N_of_ascii c + 32)
  else c.

Fixpoint toLowerCase (s : string) : string :=
  match s with
  | EmptyString => EmptyString
  | String c s' => String (lowerUnit c) (toLowerCase s')
  end.

(** [String.prototype.includes]: [t] occurs in [s] as a substring. *)
Fixpoint includes (s t : string) : bool :=
  if String.prefix t s then true
  else match s with
       | EmptyString => false
       | String _ s' => includes s' t
       end.

(** The class [\s] of a regular expression: tab, line feed, vertical
    tab, form feed, carriage return, space, no-break space. *)
Definition isSpace (c : ascii) : bool :=
  let n := N_of_ascii c in
  (unit_in 9 13 c || N.eqb n 32 || N.eqb n 160)%bool.

(** [s.split(/\s+/)]: the pieces between the maximal runs of white
    space; a run at either end leaves an empty piece there. [cur] is the
    piece being read, [inRun] tells that the previous unit was white. *)
Fixpoint splitFrom (cur : string) (inRun : bool) (s : string) : list string :=
  match s with
  | EmptyString => [cur]
  | String c s' =>
      if isSpace c then
        if inRun then splitFrom EmptyString true s'
        else cur :: splitFrom EmptyString true s'
      else splitFrom (cur ++ String c EmptyString) false s'
  end.

Definition splitSpaces (s : string) : list string :=
  splitFrom EmptyString false s.

(** Truthiness of a string: only the empty string is falsy. *)
Definition truthy (s : string) : bool :=
  match s with EmptyString => false | String _ _ => true end.

(** [Array.prototype.join]. *)
Fixpoint join (sep : string) (l : list string) : string :=
  match l with
  | [] => EmptyString
  | [x] => x
  | x :: rest => x ++ sep ++ join sep rest
  end.

(** [Array.prototype.sort] with a comparator: a stable sort. [insert]
    puts [x], which stood before everything in [l], in front of the
    first element that the comparator does not order before it. *)
Section Sort.
Context {A : Type} (cmp : A -> A -> Z).

Fixpoint insert (x : A) (l : list A) : list A :=
  match l with
  | [] => [x]
  | y :: l' => if cmp x y <=? 0 then x :: y :: l' else y :: insert x l'
  end.

Definition sort (l : list A) : list A := fold_right insert [] l.
End Sort.

(** The default comparator of [sort]: code-unit order of strings. *)
Definition compareStrings (a b : string) : Z :=
  match String.compare a b with Lt => -1 | Eq => 0 | Gt => 1 end.

(** [a.slice(0, end)] for an integer [end]: a negative [end] counts from
    the end of the array. *)
Definition slice0 {A : Type} (l : list A) (endIx : Z) : list A :=
  if endIx <? 0
  then firstn (Z.to_nat (Z.max (Z.of_nat (length l) + endIx) 0)) l
  else firstn (Z.to_nat endIx) l.

(** [Map] and [Set] keep their keys in insertion order. *)
Definition OrderedSet := list string.
Definition OrderedMap := list (string * OrderedSet).

Definition setAdd (s : OrderedSet) (x : string) : OrderedSet :=
  if existsb (String.eqb x) s then s else (s ++ [x])%list.

Definition mapHas (m : OrderedMap) (k : string) : bool :=
  existsb (fun kv => String.eqb k (fst kv)) m.

(** [m.set(k, v)] for a key that [m] does not hold yet. *)
Definition mapSetNew (m : OrderedMap) (k : string) (v : OrderedSet) : OrderedMap :=
  (m ++ [(k, v)])%list.

(** [m.get(k)!.add(x)]: the set stored under [k] is updated in place. *)
Fixpoint mapAddTo (m : OrderedMap) (k x : string) : OrderedMap :=
  match m with
  | [] => []
  | (k', s) :: m' =>
      if String.eqb k k' then (k', setAdd s x) :: m'
      else (k', s) :: mapAddTo m' k x
  end.

(** A template literal prints a count in decimal. *)
Definition numberToString (n : nat) : string :=
  NilEmpty.string_of_uint (Nat.to_uint n).

End JS.

(** ** Data model *)

Record DocEntry := {
  path : string;
  title : string;
  description : string;
  vendor : string;
  model : string;
  format : string;
  capability : string;
  category : string;
  content : string
}.

Record DocsIndex := {
  version : string;
  generatedAt : string;
  totalDocs : Z;
  vendors : list string;
  entries : list DocEntry
}.

(** What [JSON.parse] and [response.json()] hand back. The code casts the
    value to [DocsIndex] without looking at it and only ever tests its
    truthiness, so two cases matter: a falsy value ([null], and likewise
    [false], [0] and the empty string), and an index document. *)
Inductive Json :=
| JNull
| JDoc (index : DocsIndex).

(** The text of a file or of a response body: either it is not JSON, or it
    is the serialisation of a value. *)
Inductive Text :=
| Malformed
| JsonText (j : Json).

Inductive File :=
| Missing
| Unreadable
| Readable (text : Text).

Inductive Path := CACHE_DIR | CACHE_INDEX_PATH | LOCAL_INDEX_PATH.

Definition CACHE_TTL : Z := 60 * 60 * 1000.

(** The outcome of the HTTP request: it throws (network error, timeout),
    or it yields a response with its [ok] flag and body. *)
Inductive Response :=
| NetworkError
| Status (ok : bool) (body : Text).

(** What the environment answers during one call. *)
Record Env := {
  dateNow : Z;
  fetchResult : Response;
  mkdirOk : bool;
  writeOk : bool
}.

Record World := {
  cachedIndex : Json;
  lastFetchTime : Z;
  cacheDir : bool;
  cacheFile : File;
  bundledFile : File
}.

(** The state of a process that has just started, on a given disk. *)
Definition initialWorld (dir : bool) (cache bundled : File) : World :=
  {| cachedIndex := JNull; lastFetchTime := 0;
     cacheDir := dir; cacheFile := cache; bundledFile := bundled |}.

Inductive Event :=
| EvFetch
| EvExists (p : Path)
| EvRead (p : Path)
| EvMkdir
| EvWrite (t : Text)
| EvLog.

Inductive Error :=
| RuntimeError
| IndexNotAvailable
| IndexNotLoaded
| DocumentNotFound (docPath : string).

Inductive Outcome (A : Type) :=
| Ret (a : A)
| Throw (e : Error).
Arguments Ret {A} a.
Arguments Throw {A} e.

(** ** The monad of effects *)

Definition M (A : Type) : Type := World -> Outcome A * World * list Event.

Definition ret {A} (a : A) : M A := fun w => (Ret a, w, []).

Definition throw {A} (e : Error) : M A := fun w => (Throw e, w, []).

Definition bind {A B} (m : M A) (k : A -> M B) : M B := fun w =>
  match m w with
  | (Ret a, w1, ev1) => let '(r, w2, ev2) := k a w1 in (r, w2, (ev1 ++ ev2)%list)
  | (Throw e, w1, ev1) => (Throw e, w1, ev1)
  end.

(** [try { m } catch (e) { h e }] *)
Definition tryCatch {A} (m : M A) (h : Error -> M A) : M A := fun w =>
  match m w with
  | (Ret a, w1, ev1) => (Ret a, w1, ev1)
  | (Throw e, w1, ev1) => let '(r, w2, ev2) := h e w1 in (r, w2, (ev1 ++ ev2)%list)
  end.

Declare Scope monad_scope.
Delimit Scope monad_scope with monad.
Notation "x <- m ;; k" := (bind m (fun x => k))
  (at level 61, m at next level, right associativity) : monad_scope.
Notation "m ;; k" := (bind m (fun _ => k))
  (at level 61, right associativity) : monad_scope.
Local Open Scope monad_scope.

Definition getWorld : M World := fun w => (Ret w, w, []).

Definition emit (e : Event) : M unit := fun w => (Ret tt, w, [e]).

(** The world with the two module variables assigned. *)
Definition withMemory (w : World) (index : Json) (time : Z) : World :=
  {| cachedIndex := index; lastFetchTime := time;
     cacheDir := cacheDir w; cacheFile := cacheFile w;
     bundledFile := bundledFile w |}.

(** [cachedIndex = index; lastFetchTime = now] *)
Definition setCache (index : DocsIndex) (now : Z) : M unit := fun w =>
  (Ret tt, withMemory w (JDoc index) now, []).

(** [cachedIndex = index], the time stamp left alone. *)
Definition setCachedIndex (index : DocsIndex) : M unit := fun w =>
  (Ret tt, withMemory w (JDoc index) (lastFetchTime w), []).

Definition isPresent (f : File) : bool :=
  match f with Missing => false | _ => true end.

Definition existsSync (p : Path) : M bool := fun w =>
  (Ret match p with
       | CACHE_DIR => cacheDir w
       | CACHE_INDEX_PATH => isPresent (cacheFile w)
       | LOCAL_INDEX_PATH => isPresent (bundledFile w)
       end, w, [EvExists p]).

Definition fileAt (p : Path) (w : World) : File :=
  match p with
  | CACHE_DIR => Unreadable
  | CACHE_INDEX_PATH => cacheFile w
  | LOCAL_INDEX_PATH => bundledFile w
  end.

Definition readFileSync (p : Path) : M Text := fun w =>
  match fileAt p w with
  | Readable t => (Ret t, w, [EvRead p])
  | _ => (Throw RuntimeError, w, [EvRead p])
  end.

Definition JSON_parse (t : Text) : M Json :=
  match t with
  | Malformed => throw RuntimeError
  | JsonText j => ret j
  end.

Definition JSON_stringify (j : Json) : Text := JsonText j.

Definition mkdirSync (env : Env) : M unit := fun w =>
  if mkdirOk env
  then (Ret tt,
        {| cachedIndex := cachedIndex w; lastFetchTime := lastFetchTime w;
           cacheDir := true; cacheFile := cacheFile w;
           bundledFile := bundledFile w |}, [EvMkdir])
  else (Throw RuntimeError, w, [EvMkdir]).

(** Writing [CACHE_INDEX_PATH]: it needs the directory, and the
    environment may refuse it all the same. *)
Definition writeFileSync (env : Env) (t : Text) : M unit := fun w =>
  if (writeOk env && cacheDir w)%bool
  then (Ret tt,
        {| cachedIndex := cachedIndex w; lastFetchTime := lastFetchTime w;
           cacheDir := cacheDir w; cacheFile := Readable t;
           bundledFile := bundledFile w |}, [EvWrite t])
  else (Throw RuntimeError, w, [EvWrite t]).

Definition fetch (env : Env) : M (bool * Text) := fun w =>
  match fetchResult env with
  | NetworkError => (Throw RuntimeError, w, [EvFetch])
  | Status ok body => (Ret (ok, body), w, [EvFetch])
  end.

Definition console_error : M unit := emit EvLog.

(** ** The index store *)

Definition ensureCacheDir (env : Env) : M unit :=
  present <- existsSync CACHE_DIR ;;
  if negb present then mkdirSync env else ret tt.

Definition fetchRemoteIndex (env : Env) : M Json :=
  tryCatch
    (response <- fetch env ;;
     if negb (fst response) then
       console_error ;; ret JNull
     else
       index <- JSON_parse (snd response) ;;
       tryCatch
         (ensureCacheDir env ;; writeFileSync env (JSON_stringify index))
         (fun _ => ret tt) ;;
       ret index)
    (fun _ => console_error ;; ret JNull).

(** One [if (existsSync(p)) { try { return JSON.parse(readFileSync(p)) }
    catch {} }] block: [Some j] when the block returns [j], [None] when
    control falls out of it. *)
Definition tryReadIndex (p : Path) : M (option Json) :=
  present <- existsSync p ;;
  if present then
    tryCatch
      (text <- readFileSync p ;; j <- JSON_parse text ;; ret (Some j))
      (fun _ => ret None)
  else ret None.

Definition loadCachedIndex : M Json :=
  fromCache <- tryReadIndex CACHE_INDEX_PATH ;;
  match fromCache with
  | Some j => ret j
  | None =>
      fromBundle <- tryReadIndex LOCAL_INDEX_PATH ;;
      match fromBundle with
      | Some j => ret j
      | None => ret JNull
      end
  end.

Definition loadIndex (env : Env) : M DocsIndex :=
  let now := dateNow env in
  w <- getWorld ;;
  match cachedIndex w, now - lastFetchTime w <? CACHE_TTL with
  | JDoc cached, true => ret cached
  | _, _ =>
      remoteIndex <- fetchRemoteIndex env ;;
      match remoteIndex with
      | JDoc index => setCache index now ;; ret index
      | JNull =>
          fallbackIndex <- loadCachedIndex ;;
          match fallbackIndex with
          | JDoc index => setCache index now ;; ret index
          | JNull => throw IndexNotAvailable
          end
      end
  end.

Definition loadIndexSync : M DocsIndex :=
  w <- getWorld ;;
  match cachedIndex w with
  | JDoc cached => ret cached
  | JNull =>
      fallbackIndex <- loadCachedIndex ;;
      match fallbackIndex with
      | JDoc index => setCachedIndex index ;; ret index
      | JNull => throw IndexNotLoaded
      end
  end.

(** ** The query engine *)

(** The body of the [for (const term of queryTerms)] loop of [searchDocs]:
    six independent tests, each adding its bonus to the running score. *)
Definition scoreTerm (entry : DocEntry) (searchableText : string)
    (score : Z) (term : string) : Z :=
  let score :=
    if JS.includes (JS.toLowerCase (model entry)) term then score + 10 else score in
  let score :=
    if JS.includes (JS.toLowerCase (vendor entry)) term then score + 8 else score in
  let score :=
    if JS.includes (JS.toLowerCase (title entry)) term then score + 5 else score in
  let score :=
    if JS.includes (JS.toLowerCase (capability entry)) term then score + 4 else score in
  let score :=
    if JS.includes (JS.toLowerCase (description entry)) term then score + 2 else score in
  let score :=
    if JS.includes searchableText term then score + 1 else score in
  score.

Definition searchableTextOf (entry : DocEntry) : string :=
  JS.toLowerCase
    (JS.join " " [title entry; description entry; path entry;
                  vendor entry; model entry; capability entry]).

Definition queryTermsOf (query : string) : list string :=
  let queryLower := JS.toLowerCase query in
  filter JS.truthy (JS.splitSpaces queryLower).

(** The callback of [index.entries.map]: the entry with its score. *)
Definition scoreEntry (queryTerms : list string) (entry : DocEntry) : DocEntry * Z :=
  (entry, fold_left (scoreTerm entry (searchableTextOf entry)) queryTerms 0).

Definition DEFAULT_LIMIT : Z := 20.

(** [searchDocs] after the index has been loaded. *)
Definition searchIn (index : DocsIndex) (query : string) (limit : Z) : list DocEntry :=
  let queryTerms := queryTermsOf query in
  let scored := map (scoreEntry queryTerms) (entries index) in
  map fst
    (JS.slice0
       (JS.sort (fun a b => snd b - snd a)
          (filter (fun s => snd s >? 0) scored))
       limit).

(** The parameter [limit: number = 20]; [None] when the caller leaves the
    argument out. *)
Definition limitOrDefault (limit : option Z) : Z :=
  match limit with Some l => l | None => DEFAULT_LIMIT end.

Definition searchDocs (env : Env) (query : string) (limit : option Z)
  : M (list DocEntry) :=
  let limit := limitOrDefault limit in
  index <- loadIndex env ;;
  ret (searchIn index query limit).

Definition getDocContent (env : Env) (docPath : string) : M (string * DocEntry) :=
  index <- loadIndex env ;;
  match find (fun e => String.eqb (path e) docPath) (entries index) with
  | None => throw (DocumentNotFound docPath)
  | Some entry => ret (content entry, entry)
  end.

Record ApiRecord := {
  api_vendor : string;
  api_model : string;
  api_capabilities : list string
}.

Record ApiList := {
  list_vendors : list string;
  list_apis : list ApiRecord
}.

(** The loop that fills [modelMap]. *)
Definition groupByModel (vendorEntries : list DocEntry) : JS.OrderedMap :=
  fold_left
    (fun modelMap entry =>
       let modelMap :=
         if negb (JS.mapHas modelMap (model entry))
         then JS.mapSetNew modelMap (model entry) []
         else modelMap in
       if JS.truthy (capability entry)
       then JS.mapAddTo modelMap (model entry) (capability entry)
       else modelMap)
    vendorEntries [].

(** The loop that fills [vendorModels]. *)
Definition groupByVendor (allEntries : list DocEntry) : JS.OrderedMap :=
  fold_left
    (fun vendorModels entry =>
       if (JS.truthy (vendor entry) && String.eqb (category entry) "api")%bool
       then
         let vendorModels :=
           if negb (JS.mapHas vendorModels (vendor entry))
           then JS.mapSetNew vendorModels (vendor entry) []
           else vendorModels in
         JS.mapAddTo vendorModels (vendor entry) (model entry)
       else vendorModels)
    allEntries [].

(** [vendorEntries[0]?.vendor || vendor] *)
Definition vendorLabel (vendorEntries : list DocEntry) (vendor0 : string) : string :=
  match vendorEntries with
  | first :: _ => if JS.truthy (vendor first) then vendor first else vendor0
  | [] => vendor0
  end.

(** The branch of [listApis] for a given vendor. *)
Definition listVendor (index : DocsIndex) (vendor0 : string) : ApiList :=
  let vendorLower := JS.toLowerCase vendor0 in
  let vendorEntries :=
    filter
      (fun e => (String.eqb (JS.toLowerCase (vendor e)) vendorLower
                 && String.eqb (category e) "api")%bool)
      (entries index) in
  let modelMap := groupByModel vendorEntries in
  let apis :=
    map (fun mc =>
           {| api_vendor := vendorLabel vendorEntries vendor0;
              api_model := fst mc;
              api_capabilities := JS.sort JS.compareStrings (snd mc) |})
        modelMap in
  {| list_vendors := [vendor0]; list_apis := apis |}.

(** The branch of [listApis] for all vendors. *)
Definition listAllVendors (index : DocsIndex) : ApiList :=
  let vendorModels := groupByVendor (entries index) in
  let apis :=
    map (fun vm =>
           {| api_vendor := fst vm;
              api_model :=
                JS.numberToString (length (snd vm)) ++ " models available";
              api_capabilities := [] |})
        vendorModels in
  {| list_vendors := vendors index; list_apis := apis |}.

(** [listApis] after the index has been loaded. The argument is [None]
    when the caller leaves it out; the test [if (vendor)] sends the empty
    string down the same branch. *)
Definition listIn (index : DocsIndex) (vendorArg : option string) : ApiList :=
  match vendorArg with
  | Some vendor0 =>
      if JS.truthy vendor0 then listVendor index vendor0
      else listAllVendors index
  | None => listAllVendors index
  end.

Definition listApis (env : Env) (vendorArg : option string) : M ApiList :=
  index <- loadIndex env ;;
  ret (listIn index vendorArg).

(** ** Sample data *)

Definition gpt4o : DocEntry :=
  {| path := "docs/allapi/OpenAI/gpt-4o/official-format/text-to-text-chat";
     title := "gpt-4o (Text to Text (Chat))";
     description := "";
     vendor := "OpenAI";
     model := "gpt-4o";
     format := "official-format";
     capability := "text-to-text-chat";
     category := "api";
     content := "# gpt-4o" |}.

Definition gpt4oImage : DocEntry :=
  {| path := "docs/allapi/OpenAI/gpt-4o/official-format/image-to-text";
     title := "gpt-4o (Image to Text)";
     description := "";
     vendor := "OpenAI";
     model := "gpt-4o";
     format := "official-format";
     capability := "image-to-text";
     category := "api";
     content := "# gpt-4o vision" |}.

Definition claude : DocEntry :=
  {| path := "docs/allapi/Claude/claude-3/official-format/text-to-text";
     title := "claude-3 (Text to Text)";
     description := "Chat with Claude";
     vendor := "Claude";
     model := "claude-3";
     format := "official-format";
     capability := "text-to-text";
     category := "api";
     content := "# claude-3" |}.

Definition guide : DocEntry :=
  {| path := "docs/guide/codex";
     title := "Codex guide";
     description := "How to use the API";
     vendor := "";
     model := "";
     format := "";
     capability := "";
     category := "guide";
     content := "# Codex" |}.

Definition sampleIndex : DocsIndex :=
  {| version := "1.0.0";
     generatedAt := "2025-01-01T00:00:00.000Z";
     totalDocs := 4;
     vendors := ["Claude"; "OpenAI"];
     entries := [gpt4o; claude; gpt4oImage; guide] |}.

Definition oneEntryIndex : DocsIndex :=
  {| version := "1.0.0";
     generatedAt := "2025-01-01T00:00:00.000Z";
     totalDocs := 1;
     vendors := ["OpenAI"];
     entries := [gpt4o] |}.

Definition offline (now : Z) : Env :=
  {| dateNow := now; fetchResult := NetworkError;
     mkdirOk := true; writeOk := true |}.

Definition online (now : Z) (body : Text) : Env :=
  {| dateNow := now; fetchResult := Status true body;
     mkdirOk := true; writeOk := true |}.

Definition sampleWorld (index : DocsIndex) (time : Z) : World :=
  {| cachedIndex := JDoc index; lastFetchTime := time;
     cacheDir := true;
     cacheFile := Readable (JsonText (JDoc index));
     bundledFile := Readable (JsonText (JDoc oneEntryIndex)) |}.

(** An entry whose title ends where its description goes on. *)
Definition quickStart : DocEntry :=
  {| path := "docs/guide/intro";
     title := "Quick";
     description := "start guide";
     vendor := "";
     model := "";
     format := "";
     capability := "";
     category := "guide";
     content := "# Intro" |}.

(** What the index builder makes of the page [docs/allapi]: an entry of
    category [api] without a vendor. *)
Definition allApiPage : DocEntry :=
  {| path := "docs/allapi";
     title := "All APIs";
     description := "";
     vendor := "";
     model := "";
     format := "";
     capability := "";
     category := "api";
     content := "# All APIs" |}.

Definition overviewIndex : DocsIndex :=
  {| version := "1.0.0";
     generatedAt := "2025-01-01T00:00:00.000Z";
     totalDocs := 2;
     vendors := ["OpenAI"];
     entries := [allApiPage; gpt4o] |}.

(** ** Notions used to state the properties *)

(** The score [searchDocs] gives an entry for a query. *)
Definition scoreOf (query : string) (entry : DocEntry) : Z :=
  snd (scoreEntry (queryTermsOf query) entry).

Definition positive (query : string) (entry : DocEntry) : bool :=
  scoreOf query entry >? 0.

(** The entries with a positive score, best first, ties in the order of
    the index. *)
Definition ranked (index : DocsIndex) (query : string) : list DocEntry :=
  JS.sort (fun a b => scoreOf query b - scoreOf query a)
          (filter (positive query) (entries index)).

Definition sumZ (l : list Z) : Z := fold_right Z.add 0 l.

Definition bonus (hit : bool) (points : Z) : Z := if hit then points else 0.

(** The points one term earns an entry, the last bonus being looked up in
    the lowercased text of the six fields joined by single spaces. *)
Definition termPoints (entry : DocEntry) (term : string) : Z :=
  bonus (JS.includes (JS.toLowerCase (model entry)) term) 10
  + bonus (JS.includes (JS.toLowerCase (vendor entry)) term) 8
  + bonus (JS.includes (JS.toLowerCase (title entry)) term) 5
  + bonus (JS.includes (JS.toLowerCase (capability entry)) term) 4
  + bonus (JS.includes (JS.toLowerCase (description entry)) term) 2
  + bonus (JS.includes (searchableTextOf entry) term) 1.

(** The score as the specification words it: the last bonus is looked up
    in the concatenation of the six fields. *)
Definition concatenationOf (entry : DocEntry) : string :=
  title entry ++ description entry ++ path entry
  ++ vendor entry ++ model entry ++ capability entry.

Definition termPointsSpec (entry : DocEntry) (term : string) : Z :=
  bonus (JS.includes (JS.toLowerCase (model entry)) term) 10
  + bonus (JS.includes (JS.toLowerCase (vendor entry)) term) 8
  + bonus (JS.includes (JS.toLowerCase (title entry)) term) 5
  + bonus (JS.includes (JS.toLowerCase (capability entry)) term) 4
  + bonus (JS.includes (JS.toLowerCase (description entry)) term) 2
  + bonus (JS.includes (JS.toLowerCase (concatenationOf entry)) term) 1.

Definition scoreSpec (query : string) (entry : DocEntry) : Z :=
  sumZ (map (termPointsSpec entry) (queryTermsOf query)).

(** An entry is listed under a requested vendor. *)
Definition matchesVendor (vendor0 : string) (e : DocEntry) : Prop :=
  category e = "api" /\ JS.toLowerCase (vendor e) = JS.toLowerCase vendor0.

(** One round of a grouping loop: make sure the key has a set, then add
    the value to it when the entry carries one. *)
Definition groupStep (keyOf valOf : DocEntry -> string) (adds : DocEntry -> bool)
    (m : JS.OrderedMap) (e : DocEntry) : JS.OrderedMap :=
  let m :=
    if negb (JS.mapHas m (keyOf e)) then JS.mapSetNew m (keyOf e) [] else m in
  if adds e then JS.mapAddTo m (keyOf e) (valOf e) else m.

(** What a grouping loop has built once it has seen the entries [seen]:
    one key per key value seen, each with the set of the values that the
    entries of that key carry. *)
Definition grouped (keyOf valOf : DocEntry -> string) (adds : DocEntry -> bool)
    (seen : list DocEntry) (m : JS.OrderedMap) : Prop :=
  NoDup (map fst m)
  /\ (forall k, In k (map fst m) <-> exists e, In e seen /\ keyOf e = k)
  /\ (forall k s, In (k, s) m ->
        NoDup s
        /\ forall x, In x s <->
                     exists e, In e seen /\ keyOf e = k
                               /\ adds e = true /\ valOf e = x).

(** Strictly ascending in code-unit order. *)
Definition ascending (l : list string) : Prop :=
  Sorted (fun a b => String.compare a b = Lt) l.


(** A string without white space, and a string without a given unit. *)
Fixpoint spaceFree (s : string) : Prop :=
  match s with
  | EmptyString => True
  | String c s' => JS.isSpace c = false /\ spaceFree s'
  end.

Fixpoint withoutUnit (c : ascii) (s : string) : Prop :=
  match s with
  | EmptyString => True
  | String c' s' => c' <> c /\ withoutUnit c s'
  end.

(** The memory cache cannot serve the call: nothing is cached, or the
    cached index is one hour old or more. *)
Definition stale (env : Env) (w : World) : Prop :=
  cachedIndex w = JNull \/ CACHE_TTL <= dateNow env - lastFetchTime w.

(** The value [fetchRemoteIndex] hands to [loadIndex]. *)
Definition remoteValue (env : Env) : Json :=
  match fetchResult env with
  | Status true (JsonText j) => j
  | _ => JNull
  end.

(** The remote attempt fails: network error or timeout, a status that is
    not a success, or a body that is not JSON. *)
Definition fetchFails (env : Env) : Prop :=
  match fetchResult env with
  | Status true (JsonText _) => False
  | _ => True
  end.

(** The write of the fetched text to [CACHE_INDEX_PATH] goes through. *)
Definition persisted (env : Env) (w : World) : bool :=
  (writeOk env && (cacheDir w || mkdirOk env))%bool.

(** A file yields a document when it can be read and its text parses. *)
Definition parsed (f : File) : option Json :=
  match f with
  | Readable (JsonText j) => Some j
  | _ => None
  end.

(** The value [loadCachedIndex] hands back on a given disk. *)
Definition diskValue (w : World) : Json :=
  match parsed (cacheFile w) with
  | Some j => j
  | None =>
      match parsed (bundledFile w) with
      | Some j => j
      | None => JNull
      end
  end.

(** The disk has an index for [loadCachedIndex] to return: the per-user
    cache file yields it, or that file is missing, unreadable or not JSON
    and the bundled file yields it. *)
Definition diskOffers (w : World) (index : DocsIndex) : Prop :=
  parsed (cacheFile w) = Some (JDoc index)
  \/ (parsed (cacheFile w) = None
      /\ parsed (bundledFile w) = Some (JDoc index)).

Definition outcomeOf {A} (r : Outcome A * World * list Event) : Outcome A :=
  fst (fst r).
Definition worldOf {A} (r : Outcome A * World * list Event) : World :=
  snd (fst r).
Definition eventsOf {A} (r : Outcome A * World * list Event) : list Event :=
  snd r.

(** Another program, or the user, changes the files. *)
Definition withDisk (w : World) (dir : bool) (cache bundled : File) : World :=
  {| cachedIndex := cachedIndex w; lastFetchTime := lastFetchTime w;
     cacheDir := dir; cacheFile := cache; bundledFile := bundled |}.

(** The states a process can be in: it starts with an empty memory cache
    and then runs the two exported loaders (the query functions reach the
    world through [loadIndex] only), while the disk may change under it. *)
Inductive reachable : World -> Prop :=
| reach_start dir cache bundled :
    reachable (initialWorld dir cache bundled)
| reach_loadIndex env w :
    reachable w -> reachable (worldOf (loadIndex env w))
| reach_loadIndexSync w :
    reachable w -> reachable (worldOf (loadIndexSync w))
| reach_disk w dir cache bundled :
    reachable w -> reachable (withDisk w dir cache bundled).

(** ** The rest of the tool and of the server *)

(** More string primitives. *)
Module Str.

(** [s.split(sep)] for a separator of one unit: the pieces between the
    separators, empty ones included; never an empty array. *)
Fixpoint splitFrom (sep : ascii) (cur : string) (s : string) : list string :=
  match s with
  | EmptyString => [cur]
  | String c s' =>
      if Ascii.eqb c sep then cur :: splitFrom sep EmptyString s'
      else splitFrom sep (cur ++ String c EmptyString) s'
  end.

Definition split (sep : ascii) (s : string) : list string :=
  splitFrom sep EmptyString s.

(** [a.pop()] on an array that is passed on nowhere else: its last
    element, [undefined] on the empty array. *)
Definition pop (l : list string) : option string :=
  match rev l with
  | [] => None
  | x :: _ => Some x
  end.

(** [a[i] || ""] *)
Definition partOr (parts : list string) (i : nat) : string :=
  nth i parts EmptyString.

Definition startsWith (s pre : string) : bool := String.prefix pre s.

(** [s.replace(/^docs\//, "")] *)
Definition dropDocs (s : string) : string :=
  if String.prefix "docs/" s then String.substring 5 (String.length s - 5) s
  else s.

(** [a || b] on strings. *)
Definition orElse (a b : string) : string := if JS.truthy a then a else b.

End Str.

(** A JSON value, as [JSON.parse] builds it and [JSON.stringify] prints
    it; the fields of an object come in their order, each key once. *)
Inductive JValue :=
| VNull
| VBool (b : bool)
| VNumber (n : Z)
| VString (s : string)
| VArray (items : list JValue)
| VObject (fields : list (string * JValue)).

Definition truthyValue (v : JValue) : bool :=
  match v with
  | VNull => false
  | VBool b => b
  | VNumber n => negb (n =? 0)
  | VString s => JS.truthy s
  | VArray _ => true
  | VObject _ => true
  end.

(** The errors raised above the index store. *)
Inductive Failure :=
| Raised (e : Error)
| QueryRequired
| PathRequired
| InvalidAction (action : string)
| QuickstartNotFound
| AuthenticationNotFound
| ResourceNotFound (uri : string)
| InvalidArgument (key message : string)
| MissingArgument (key : string).

Inductive Reply (A : Type) :=
| Returned (a : A)
| Failed (f : Failure).
Arguments Returned {A} a.
Arguments Failed {A} f.

Definition Served (A : Type) : Type := World -> Reply A * World * list Event.

(** [k(await m)]: an exception of [m] goes through. *)
Definition serve {A B} (m : M A) (k : A -> Reply B) : Served B := fun w =>
  match m w with
  | (Ret a, w', evs) => (k a, w', evs)
  | (Throw e, w', evs) => (Failed (Raised e), w', evs)
  end.

Definition refuse {A} (f : Failure) : Served A := fun w => (Failed f, w, []).

(** *** [handler] *)

(** [r.title || r.path.split("/").pop()], and the same with the requested
    path in the "get" branch. [pop] cannot give [undefined] here, [split]
    never returning an empty array; the model prints it as [null]. *)
Definition titleOr (title0 path0 : string) : JValue :=
  if JS.truthy title0 then VString title0
  else match Str.pop (Str.split "/" path0) with
       | Some last => VString last
       | None => VNull
       end.

Definition resultSummary (r : DocEntry) : JValue :=
  VObject [("path", VString (path r));
           ("title", titleOr (title r) (path r));
           ("description", VString (description r));
           ("vendor", VString (vendor r));
           ("model", VString (model r));
           ("capability", VString (capability r))].

Definition apiRecordValue (a : ApiRecord) : JValue :=
  VObject [("vendor", VString (api_vendor a));
           ("model", VString (api_model a));
           ("capabilities", VArray (map VString (api_capabilities a)))].

Definition searchReply (query : string) (results : list DocEntry) : JValue :=
  if (length results =? 0)%nat then
    VObject [("query", VString query);
             ("results", VArray []);
             ("message", VString "No documentation found matching your query.");
             ("suggestion",
              VString "Try different keywords or use 'list' action to see available APIs.")]
  else
    VObject [("query", VString query);
             ("resultCount", VNumber (Z.of_nat (length results)));
             ("results", VArray (map resultSummary results))].

Definition getReply (path0 : string) (found : string * DocEntry) : JValue :=
  let '(content0, metadata0) := found in
  VObject [("path", VString path0);
           ("title", titleOr (title metadata0) path0);
           ("vendor", VString (Str.orElse (vendor metadata0) ""));
           ("model", VString (Str.orElse (model metadata0) ""));
           ("url", VString ("https://docs.gptproto.com/" ++ Str.dropDocs path0));
           ("content", VString content0)].

Definition listReply (vendorArg : option string) (result : ApiList) : JValue :=
  VObject [("vendor",
            VString match vendorArg with
                    | Some v => Str.orElse v "all"
                    | None => "all"
                    end);
           ("vendors", VArray (map VString (list_vendors result)));
           ("apis", VArray (map apiRecordValue (list_apis result)))].

(** [!arg] for an optional string argument. *)
Definition missing (arg : option string) : bool :=
  match arg with
  | Some s => negb (JS.truthy s)
  | None => true
  end.

Definition argument (arg : option string) : string :=
  match arg with Some s => s | None => EmptyString end.

(** [handler]; the value returned is the object that the code hands to
    [JSON.stringify]. *)
Definition handler (env : Env) (action : string)
    (query path0 vendor0 : option string) : Served JValue :=
  if String.eqb action "search" then
    if missing query then refuse QueryRequired
    else serve (searchDocs env (argument query) None)
               (fun results => Returned (searchReply (argument query) results))
  else if String.eqb action "get" then
    if missing path0 then refuse PathRequired
    else serve (getDocContent env (argument path0))
               (fun found => Returned (getReply (argument path0) found))
  else if String.eqb action "list" then
    serve (listApis env vendor0)
          (fun result => Returned (listReply vendor0 result))
  else refuse (InvalidAction action).

(** *** The resources *)

(** The [text] of a resource: the JSON text of a value, or a document. *)
Inductive ResourceText :=
| JsonOf (v : JValue)
| Markdown (s : string).

Record ResourceContent := {
  res_uri : string;
  res_mimeType : string;
  res_text : ResourceText
}.

Definition entryWithoutContent (e : DocEntry) : JValue :=
  VObject [("path", VString (path e));
           ("title", VString (title e));
           ("description", VString (description e));
           ("vendor", VString (vendor e));
           ("model", VString (model e));
           ("format", VString (format e));
           ("capability", VString (capability e));
           ("category", VString (category e))].

Definition indexWithoutContent (index : DocsIndex) : JValue :=
  VObject [("version", VString (version index));
           ("generatedAt", VString (generatedAt index));
           ("totalDocs", VNumber (totalDocs index));
           ("vendors", VArray (map VString (vendors index)));
           ("entries", VArray (map entryWithoutContent (entries index)))].

(** The handler of [ReadResourceRequestSchema]; the value returned is the
    list [contents]. *)
Definition readResource (env : Env) (uri : string) : Served (list ResourceContent) :=
  serve (loadIndex env)
    (fun index =>
       if String.eqb uri "gptproto://docs-index" then
         Returned [{| res_uri := uri; res_mimeType := "application/json";
                      res_text := JsonOf (indexWithoutContent index) |}]
       else if String.eqb uri "gptproto://quickstart" then
         match find (fun e => String.eqb (path e) "quickstart") (entries index) with
         | None => Failed QuickstartNotFound
         | Some entry =>
             Returned [{| res_uri := uri; res_mimeType := "text/markdown";
                          res_text := Markdown (content entry) |}]
         end
       else if String.eqb uri "gptproto://authentication" then
         match find (fun e => String.eqb (path e) "authentication") (entries index) with
         | None => Failed AuthenticationNotFound
         | Some entry =>
             Returned [{| res_uri := uri; res_mimeType := "text/markdown";
                          res_text := Markdown (content entry) |}]
         end
       else Failed (ResourceNotFound uri)).

(** *** [parseToolArgs] and [zodSchemaToJsonSchema] *)


(** [args[key]]: [None] for [undefined]. *)
Fixpoint getField (fields : list (string * JValue)) (key : string) : option JValue :=
  match fields with
  | [] => None
  | (k, v) :: rest => if String.eqb k key then Some v else getField rest key
  end.



(** A value handed to [zodSchemaToJsonSchema], as far as the function
    looks into it: the type name and the description of its [_def], and
    the parts it reads for the type names it knows. The function checks
    none of these parts, so each of them is optional here: [None] is a
    part that is [undefined] or [null]. [ZodOther] is a value of any type
    name but the nine listed before it, or of no type name, or without a
    [_def]: the function reads all of these with [?.] and treats them
    alike. The options of a union are what indexing it gives, position by
    position. Values are finite trees, as the library builds them. *)
Inductive Zod :=
| ZodString (description0 : option string)
| ZodNumber (description0 : option string)
| ZodBoolean (description0 : option string)
| ZodArray (description0 : option string) (type0 : option Zod)
| ZodObject (description0 : option string)
            (shape : option (list (string * option Zod)))
| ZodEnum (description0 : option string) (values : option (list string))
| ZodOptional (description0 : option string) (innerType : option Zod)
| ZodUnion (description0 : option string) (options : option (list (option Zod)))
| ZodDefault (description0 : option string) (innerType : option Zod)
| ZodOther (typeName : option string) (description0 : option string).

Inductive JSONSchema :=
| MkSchema (type0 : option string) (description0 : option string)
           (properties0 : option (list (string * JSONSchema)))
           (items0 : option JSONSchema) (enum0 : option (list string)).

Definition schemaType (s : JSONSchema) : option string :=
  match s with MkSchema t _ _ _ _ => t end.

Definition schemaDescription (s : JSONSchema) : option string :=
  match s with MkSchema _ d _ _ _ => d end.

(** The loop over [Object.entries(shape)]: the entries are converted in
    order, and the first conversion that throws ends the loop. *)
Definition eachEntry {A B} (convert : A -> option B)
  : list (string * A) -> option (list (string * B)) :=
  fix each (l : list (string * A)) : option (list (string * B)) :=
    match l with
    | [] => Some []
    | (key, value) :: l' =>
        match convert value with
        | None => None
        | Some converted =>
            match each l' with
            | None => None
            | Some rest => Some ((key, converted) :: rest)
            end
        end
    end.

(** [None] is the TypeError of reading [_def] of [undefined] or [null],
    of calling a [shape] that is no function, of [Object.entries] of
    [undefined] or [null], or of reading [length] of [undefined] or
    [null]. A union of two options is printed as its first option, any
    other union falls through to the last line. *)
Fixpoint zodSchemaToJsonSchema (zodSchema : Zod) : option JSONSchema :=
  match zodSchema with
  | ZodString description0 =>
      Some (MkSchema (Some "string") description0 None None None)
  | ZodNumber description0 =>
      Some (MkSchema (Some "number") description0 None None None)
  | ZodBoolean description0 =>
      Some (MkSchema (Some "boolean") description0 None None None)
  | ZodArray description0 type0 =>
      match type0 with
      | None => None
      | Some elem =>
          match zodSchemaToJsonSchema elem with
          | None => None
          | Some items =>
              Some (MkSchema (Some "array") description0 None (Some items) None)
          end
      end
  | ZodObject description0 shape =>
      match shape with
      | None => None
      | Some shape =>
          match eachEntry (fun value => match value with
                                        | None => None
                                        | Some value => zodSchemaToJsonSchema value
                                        end) shape with
          | None => None
          | Some properties =>
              Some (MkSchema (Some "object") description0 (Some properties)
                             None None)
          end
      end
  | ZodEnum description0 values =>
      Some (MkSchema (Some "string") description0 None None values)
  | ZodOptional _ innerType =>
      match innerType with
      | None => None
      | Some innerType => zodSchemaToJsonSchema innerType
      end
  | ZodUnion description0 options =>
      match options with
      | None => None
      | Some [first; _] =>
          match first with
          | None => None
          | Some first => zodSchemaToJsonSchema first
          end
      | Some _ => Some (MkSchema (Some "string") description0 None None None)
      end
  | ZodDefault _ innerType =>
      match innerType with
      | None => None
      | Some innerType => zodSchemaToJsonSchema innerType
      end
  | ZodOther _ description0 =>
      Some (MkSchema (Some "string") description0 None None None)
  end.

(** *** The index builder *)

Record PathMetadata := {
  meta_vendor : string;
  meta_model : string;
  meta_format : string;
  meta_capability : string;
  meta_category : string
}.

Definition noMetadata (category0 : string) : PathMetadata :=
  {| meta_vendor := ""; meta_model := ""; meta_format := "";
     meta_capability := ""; meta_category := category0 |}.

Definition parsePathMetadata (path0 : string) : PathMetadata :=
  let parts := Str.split "/" path0 in
  if (Str.startsWith path0 "docs/allapi/"
      || (Str.startsWith path0 "docs/api/"
          && negb (String.eqb (Str.partOr parts 2) "quickstart")))%bool
  then
    {| meta_vendor := Str.partOr parts 2;
       meta_model := Str.partOr parts 3;
       meta_format := Str.partOr parts 4;
       meta_capability := Str.partOr parts 5;
       meta_category := "api" |}
  else if Str.startsWith path0 "docs/guide/" then noMetadata "guide"
  else if Str.startsWith path0 "docs/api/quickstart/" then noMetadata "quickstart"
  else noMetadata "getting-started".

(** The inner function of [parseDocsJson]: the pages it pushes, in the
    order it pushes them. [field] is [record.key] when it is truthy. *)
Fixpoint extractPages (obj : JValue) : list string :=
  match obj with
  | VString s => [s]
  | VArray items => flat_map extractPages items
  | VObject fields =>
      let field :=
        fix field (key : string) (fs : list (string * JValue)) : list string :=
          match fs with
          | [] => []
          | (k, v) :: fs' =>
              if String.eqb k key
              then if truthyValue v then extractPages v else []
              else field key fs'
          end in
      (field "pages" fields ++ field "groups" fields ++ field "tabs" fields)%list
  | _ => []
  end.

(** [parseDocsJson], from the parsed [docs.json]; [None] when it throws,
    which reading [navigation] off [null] does. *)
Definition parseDocsJson (docsJson : JValue) : option (list string) :=
  match docsJson with
  | VNull => None
  | VObject fields =>
      match getField fields "navigation" with
      | Some navigation =>
          Some (if truthyValue navigation then extractPages navigation else [])
      | None => Some []
      end
  | _ => Some []
  end.

(** What [readMdxFile] gives for a page. *)
Record MdxData := {
  mdx_title : string;
  mdx_description : string;
  mdx_content : string
}.

(** One round of the loop of [buildIndex] over the pages. *)
Definition addPage (readMdxFile : string -> MdxData)
    (state : list DocEntry * JS.OrderedSet) (page : string)
  : list DocEntry * JS.OrderedSet :=
  let '(entries0, vendors0) := state in
  let metadata := parsePathMetadata page in
  let mdxData := readMdxFile page in
  let vendors0 :=
    if JS.truthy (meta_vendor metadata)
    then JS.setAdd vendors0 (meta_vendor metadata)
    else vendors0 in
  ((entries0 ++
    [{| path := page;
        title := mdx_title mdxData;
        description := mdx_description mdxData;
        vendor := Str.orElse (meta_vendor metadata) "";
        model := Str.orElse (meta_model metadata) "";
        format := Str.orElse (meta_format metadata) "";
        capability := Str.orElse (meta_capability metadata) "";
        category := Str.orElse (meta_category metadata) "api";
        content := mdx_content mdxData |}])%list,
   vendors0).

(** The index that [buildIndex] writes, from the parsed [docs.json], the
    reader of the MDX files and the time of the build; [None] when it
    throws before writing. *)
Definition buildIndex (docsJson : JValue) (readMdxFile : string -> MdxData)
    (now : string) : option DocsIndex :=
  match parseDocsJson docsJson with
  | None => None
  | Some pages =>
      let '(entries0, vendors0) :=
        fold_left (addPage readMdxFile) pages ([], []) in
      Some {| version := "1.0.0";
              generatedAt := now;
              totalDocs := Z.of_nat (length entries0);
              vendors := JS.sort JS.compareStrings vendors0;
              entries := entries0 |}
  end.

(** ** More notions *)

(** An event that only looks at the disk. *)
Definition looksOnly (e : Event) : Prop :=
  match e with
  | EvExists _ | EvRead _ => True
  | _ => False
  end.

(** An event of the remote refresh: the request, a log line, the care of
    the cache directory, the write of the cache file. *)
Definition refreshEvent (e : Event) : Prop :=
  match e with
  | EvFetch | EvLog | EvExists CACHE_DIR | EvMkdir | EvWrite _ => True
  | _ => False
  end.

(** A string of white space only. *)
Fixpoint blank (s : string) : Prop :=
  match s with
  | EmptyString => True
  | String c s' => JS.isSpace c = true /\ blank s'
  end.

(** A term occurs in one of the six fields that the search looks at. *)
Definition occursIn (entry : DocEntry) (term : string) : Prop :=
  JS.includes (JS.toLowerCase (title entry)) term = true
  \/ JS.includes (JS.toLowerCase (description entry)) term = true
  \/ JS.includes (JS.toLowerCase (path entry)) term = true
  \/ JS.includes (JS.toLowerCase (vendor entry)) term = true
  \/ JS.includes (JS.toLowerCase (model entry)) term = true
  \/ JS.includes (JS.toLowerCase (capability entry)) term = true.

Definition replyOf {A} (r : Reply A * World * list Event) : Reply A :=
  fst (fst r).
Definition worldAfter {A} (r : Reply A * World * list Event) : World :=
  snd (fst r).
Definition eventsDuring {A} (r : Reply A * World * list Event) : list Event :=
  snd r.



Definition jsonTypes : list string :=
  ["string"; "number"; "boolean"; "array"; "object"].

(** A schema with all the parts that the validation library gives it: an
    array has its element, an enumeration its values, a wrapper what it
    wraps, an object its shape and a union its options, two of them at the
    least, and each of these is such a schema again. *)
Fixpoint wellFormed (zodSchema : Zod) : bool :=
  match zodSchema with
  | ZodString _ | ZodNumber _ | ZodBoolean _ | ZodOther _ _ => true
  | ZodEnum _ values => match values with Some _ => true | None => false end
  | ZodArray _ (Some inner) | ZodOptional _ (Some inner)
  | ZodDefault _ (Some inner) => wellFormed inner
  | ZodObject _ (Some shape) =>
      forallb (fun entry => match snd entry with
                            | Some value => wellFormed value
                            | None => false
                            end) shape
  | ZodUnion _ (Some options) =>
      (2 <=? length options)%nat
      && forallb (fun option0 => match option0 with
                                 | Some value => wellFormed value
                                 | None => false
                                 end) options
  | _ => false
  end.

(** [inputSchema] of the tool, as the validation library builds it:
    [describe] is called last, so the description of an optional argument
    sits on the wrapper and the string inside has none. *)
Definition inputSchema : list (string * Zod) :=
  [("action",
    ZodEnum (Some "Action to perform: 'search' to find docs by keyword, 'get' to fetch full document content, 'list' to list available APIs by vendor")
            (Some ["search"; "get"; "list"]));
   ("query",
    ZodOptional (Some "For 'search' action: keyword to search for in doc titles, descriptions, and paths (e.g., 'gpt-4o image', 'claude text', 'gemini video')")
                (Some (ZodString None)));
   ("path",
    ZodOptional (Some "For 'get' action: document path from search results (e.g., 'docs/allapi/OpenAI/gpt-4o/official-format/text-to-text')")
                (Some (ZodString None)));
   ("vendor",
    ZodOptional (Some "For 'list' action: vendor name to filter (e.g., 'OpenAI', 'Google', 'Claude'). Omit to list all vendors.")
                (Some (ZodString None)))].

(** The four schemas of [inputSchema] as the shape of one object. *)
Definition inputObject : Zod :=
  ZodObject None (Some (map (fun entry => (fst entry, Some (snd entry)))
                            inputSchema)).

(** The entry that [buildIndex] pushes for a page. *)
Definition pageEntry (readMdxFile : string -> MdxData) (page : string) : DocEntry :=
  let metadata := parsePathMetadata page in
  {| path := page;
     title := mdx_title (readMdxFile page);
     description := mdx_description (readMdxFile page);
     vendor := meta_vendor metadata;
     model := meta_model metadata;
     format := meta_format metadata;
     capability := meta_capability metadata;
     category := meta_category metadata;
     content := mdx_content (readMdxFile page) |}.

Definition navigationKey (key : string) : bool :=
  (String.eqb key "pages" || String.eqb key "groups" || String.eqb key "tabs")%bool.

(** The pages found under one key of an object: the inner loop of
    [extractPages] on its own. *)
Fixpoint fieldPages (key : string) (fs : list (string * JValue)) : list string :=
  match fs with
  | [] => []
  | (k, v) :: fs' =>
      if String.eqb k key
      then if truthyValue v then extractPages v else []
      else fieldPages key fs'
  end.

Definition categories : list string :=
  ["api"; "guide"; "quickstart"; "getting-started"].





(** ** The index store: what each function does *)

Ltac run :=
  cbv [loadIndex loadIndexSync loadCachedIndex tryReadIndex fetchRemoteIndex
       ensureCacheDir tryCatch bind ret throw getWorld emit setCache
       setCachedIndex existsSync readFileSync fileAt JSON_parse JSON_stringify
       mkdirSync writeFileSync fetch console_error isPresent negb fst snd
       andb app].

Lemma bind_getWorld {A} (k : World -> M A) (w : World) :
  (w0 <- getWorld ;; k w0) w = k w w.
Proof.
  unfold bind, getWorld. destruct (k w w) as [[r w2] ev2]. reflexivity.
Qed.

Lemma fetchRemoteIndex_spec (env : Env) (w : World) :
  exists w' evs,
    fetchRemoteIndex env w = (Ret (remoteValue env), w', EvFetch :: evs)
    /\ cachedIndex w' = cachedIndex w
    /\ lastFetchTime w' = lastFetchTime w
    /\ bundledFile w' = bundledFile w
    /\ (cacheFile w' = cacheFile w
        \/ cacheFile w' = Readable (JsonText (remoteValue env))).
Proof.
  unfold remoteValue. run.
  destruct (fetchResult env) as [|[] [|j]]; cbn; eauto 10.
  destruct (cacheDir w) eqn:Hdir; cbn.
  - rewrite Hdir. destruct (writeOk env); cbn; eauto 10.
  - destruct (mkdirOk env); cbn; [|eauto 10].
    destruct (writeOk env); cbn; eauto 10.
Qed.

Lemma loadCachedIndex_spec (w : World) :
  exists evs, loadCachedIndex w = (Ret (diskValue w), w, evs).
Proof.
  destruct w as [c t d [| |[|j]] [| |[|j']]]; eexists; reflexivity.
Qed.

(** The bundled copy is consulted only when the per-user file is missing,
    cannot be read, or does not parse. *)
Lemma loadCachedIndex_reads_bundle_only_if (w : World) :
  In (EvRead LOCAL_INDEX_PATH) (eventsOf (loadCachedIndex w)) ->
  parsed (cacheFile w) = None.
Proof.
  destruct w as [c t d [| |[|j]] bf]; cbn; try reflexivity.
  intros [H|[H|[]]]; discriminate.
Qed.

Lemma loadIndex_fresh (env : Env) (w : World) (cached : DocsIndex) :
  cachedIndex w = JDoc cached ->
  dateNow env - lastFetchTime w < CACHE_TTL ->
  loadIndex env w = (Ret cached, w, []).
Proof.
  intros Hc Ht. apply Z.ltb_lt in Ht.
  unfold loadIndex, bind, getWorld. rewrite Hc, Ht. reflexivity.
Qed.

Lemma bind_Ret {A B} (m : M A) (k : A -> M B) w a w1 ev1 :
  m w = (Ret a, w1, ev1) ->
  (x <- m ;; k x) w = let '(r, w2, ev2) := k a w1 in (r, w2, (ev1 ++ ev2)%list).
Proof. intros H. unfold bind. rewrite H. reflexivity. Qed.

(** What a call does when the memory cache cannot serve it: the request
    goes out, and the answer, or failing that the disk, decides. *)
Lemma loadIndex_stale (env : Env) (w : World) :
  stale env w ->
  exists w1 evs1 evs2,
    fetchRemoteIndex env w = (Ret (remoteValue env), w1, EvFetch :: evs1)
    /\ loadCachedIndex w1 = (Ret (diskValue w1), w1, evs2)
    /\ loadIndex env w =
       match remoteValue env, diskValue w1 with
       | JDoc index, _ =>
           (Ret index, withMemory w1 (JDoc index) (dateNow env), EvFetch :: evs1)
       | JNull, JDoc index =>
           (Ret index, withMemory w1 (JDoc index) (dateNow env),
            EvFetch :: evs1 ++ evs2)
       | JNull, JNull =>
           (Throw IndexNotAvailable, w1, EvFetch :: evs1 ++ evs2)
       end.
Proof.
  intros Hs.
  destruct (fetchRemoteIndex_spec env w) as (w1 & evs1 & Hf & _).
  destruct (loadCachedIndex_spec w1) as (evs2 & Hd).
  exists w1, evs1, evs2. split; [exact Hf|]. split; [exact Hd|].
  assert (Hgo : loadIndex env w =
    (remoteIndex <- fetchRemoteIndex env ;;
     match remoteIndex with
     | JDoc index => setCache index (dateNow env) ;; ret index
     | JNull =>
         fallbackIndex <- loadCachedIndex ;;
         match fallbackIndex with
         | JDoc index => setCache index (dateNow env) ;; ret index
         | JNull => throw IndexNotAvailable
         end
     end) w).
  { unfold loadIndex. rewrite bind_getWorld.
    destruct Hs as [Hs|Hs].
    - rewrite Hs. reflexivity.
    - apply Z.ltb_ge in Hs. rewrite Hs. destruct (cachedIndex w); reflexivity. }
  rewrite Hgo, (bind_Ret _ _ _ _ _ _ Hf).
  destruct (remoteValue env) as [|index];
    [|cbn; rewrite ?app_nil_r; reflexivity].
  rewrite (bind_Ret _ _ _ _ _ _ Hd).
  destruct (diskValue w1) as [|index]; cbn; rewrite ?app_nil_r; reflexivity.
Qed.

Lemma fetchRemoteIndex_failed (env : Env) (w : World) :
  fetchFails env ->
  fetchRemoteIndex env w = (Ret JNull, w, [EvFetch; EvLog]).
Proof.
  unfold fetchFails. run.
  destruct (fetchResult env) as [|[] [|j]]; cbn; intros H;
    solve [reflexivity | destruct H].
Qed.

Lemma fetchRemoteIndex_persist (env : Env) (w : World) (j : Json) :
  fetchResult env = Status true (JsonText j) ->
  exists w' evs,
    fetchRemoteIndex env w = (Ret j, w', EvFetch :: evs)
    /\ cachedIndex w' = cachedIndex w
    /\ lastFetchTime w' = lastFetchTime w
    /\ bundledFile w' = bundledFile w
    /\ cacheFile w' =
       if persisted env w then Readable (JsonText j) else cacheFile w.
Proof.
  intros H. unfold persisted. run. rewrite H.
  destruct w as [c t [|] cf bf]; cbn.
  - destruct (writeOk env); cbn; eauto 10.
  - destruct (mkdirOk env), (writeOk env); cbn; eauto 10.
Qed.

Lemma fresh_or_stale (env : Env) (w : World) :
  (exists cached, cachedIndex w = JDoc cached
                  /\ dateNow env - lastFetchTime w < CACHE_TTL)
  \/ stale env w.
Proof.
  unfold stale. destruct (cachedIndex w) as [|cached]; [right; left; reflexivity|].
  destruct (Z_lt_ge_dec (dateNow env - lastFetchTime w) CACHE_TTL) as [H|H].
  - left. eauto.
  - right. right. lia.
Qed.

Lemma loadIndexSync_spec (w : World) :
  exists evs,
    loadIndexSync w =
    match cachedIndex w, diskValue w with
    | JDoc cached, _ => (Ret cached, w, [])
    | JNull, JDoc index =>
        (Ret index, withMemory w (JDoc index) (lastFetchTime w), evs)
    | JNull, JNull => (Throw IndexNotLoaded, w, evs)
    end.
Proof.
  destruct (loadCachedIndex_spec w) as (evs & Hd).
  exists evs. unfold loadIndexSync. rewrite bind_getWorld.
  destruct (cachedIndex w) as [|cached]; [|reflexivity].
  rewrite (bind_Ret _ _ _ _ _ _ Hd).
  destruct (diskValue w); cbn; rewrite ?app_nil_r; reflexivity.
Qed.

(** The memory of the process after a call of [loadIndex]: untouched, or
    the returned index stamped with the time of the call. *)
Lemma loadIndex_memory (env : Env) (w : World) :
  (cachedIndex (worldOf (loadIndex env w)) = cachedIndex w
   /\ lastFetchTime (worldOf (loadIndex env w)) = lastFetchTime w)
  \/ (exists index,
        outcomeOf (loadIndex env w) = Ret index
        /\ cachedIndex (worldOf (loadIndex env w)) = JDoc index
        /\ lastFetchTime (worldOf (loadIndex env w)) = dateNow env).
Proof.
  destruct (fresh_or_stale env w) as [(cached & Hc & Ht)|Hs].
  - left. rewrite (loadIndex_fresh env w cached Hc Ht). auto.
  - destruct (loadIndex_stale env w Hs) as (w1 & evs1 & evs2 & Hf & _ & Hl).
    destruct (fetchRemoteIndex_spec env w) as (w1' & evs1' & Hf' & Hc & Ht & _).
    rewrite Hf in Hf'. injection Hf' as -> _. rewrite Hl.
    destruct (remoteValue env) as [|index].
    + destruct (diskValue w1') as [|index]; cbn; eauto.
    + cbn; eauto.
Qed.

(** The only exception that leaves [loadIndex]. *)
Lemma loadIndex_only_error (env : Env) (w : World) (e : Error) :
  outcomeOf (loadIndex env w) = Throw e -> e = IndexNotAvailable.
Proof.
  destruct (fresh_or_stale env w) as [(cached & Hc & Ht)|Hs].
  - rewrite (loadIndex_fresh env w cached Hc Ht). discriminate.
  - destruct (loadIndex_stale env w Hs) as (w1 & evs1 & evs2 & _ & _ & Hl).
    rewrite Hl.
    destruct (remoteValue env); [destruct (diskValue w1)|]; cbn; congruence.
Qed.

(** When the exception is raised, in terms of what the code tests: the
    memory cache cannot serve, the request yields no index, and
    [loadCachedIndex] returns a falsy value. *)
Lemma loadIndex_throws_iff (env : Env) (w : World) :
  outcomeOf (loadIndex env w) = Throw IndexNotAvailable
  <-> stale env w
      /\ remoteValue env = JNull
      /\ diskValue (worldOf (fetchRemoteIndex env w)) = JNull.
Proof.
  destruct (fresh_or_stale env w) as [(cached & Hc & Ht)|Hs].
  - rewrite (loadIndex_fresh env w cached Hc Ht). split; [discriminate|].
    unfold stale. intros ([H|H] & _); [congruence|lia].
  - destruct (loadIndex_stale env w Hs) as (w1 & evs1 & evs2 & Hf & _ & Hl).
    rewrite Hl, Hf. cbn.
    destruct (remoteValue env); [destruct (diskValue w1)|]; cbn;
      split; try discriminate; intuition congruence.
Qed.

(** The disk fallback when the cache file does yield an index, or is
    missing, unreadable or malformed while the bundled file yields one. *)
Lemma loadIndex_disk_fallback (env : Env) (w : World) (index : DocsIndex) :
  stale env w ->
  fetchFails env ->
  diskValue w = JDoc index ->
  exists evs,
    loadIndex env w = (Ret index, withMemory w (JDoc index) (dateNow env), evs)
    /\ forall env',
         dateNow env' - dateNow env < CACHE_TTL ->
         loadIndex env' (withMemory w (JDoc index) (dateNow env))
         = (Ret index, withMemory w (JDoc index) (dateNow env), []).
Proof.
  intros Hs Hfail Hd.
  destruct (loadIndex_stale env w Hs) as (w1 & evs1 & evs2 & Hf & _ & Hl).
  rewrite (fetchRemoteIndex_failed env w Hfail) in Hf.
  injection Hf as Hr <- _. rewrite <- Hr, Hd in Hl.
  eexists. split; [exact Hl|].
  intros env' Ht. apply loadIndex_fresh; [reflexivity|exact Ht].
Qed.

(** A process whose memory cache is empty has never stamped a time. *)
Lemma reachable_empty_cache (w : World) :
  reachable w -> cachedIndex w = JNull -> lastFetchTime w = 0.
Proof.
  induction 1 as [dir cache bundled|env w Hr IH|w Hr IH|w dir cache bundled Hr IH].
  - reflexivity.
  - destruct (loadIndex_memory env w) as [[Hc Ht]|(index & _ & Hc & _)];
      intros H; [rewrite Ht; apply IH; congruence|congruence].
  - destruct (loadIndexSync_spec w) as (evs & ->).
    destruct (cachedIndex w) eqn:Hc; [destruct (diskValue w)|]; cbn;
      intros; auto; congruence.
  - exact IH.
Qed.

(** ** The index store: the properties of the specification *)

(** C1. In a state where an index is cached in memory and less than one
    hour has passed since [lastFetchTime], [loadIndex] returns that very
    index, leaves the whole world as it was, and performs no I/O at all
    (no request, no look at the disk); it cannot throw. *)
Theorem loadIndex_memory_hit (env : Env) (w : World) (cached : DocsIndex) :
  cachedIndex w = JDoc cached ->
  dateNow env - lastFetchTime w < CACHE_TTL ->
  outcomeOf (loadIndex env w) = Ret cached
  /\ worldOf (loadIndex env w) = w
  /\ eventsOf (loadIndex env w) = []
  /\ ~ In EvFetch (eventsOf (loadIndex env w))
  /\ (forall p, ~ In (EvRead p) (eventsOf (loadIndex env w))).
Proof.
  intros Hc Ht. rewrite (loadIndex_fresh env w cached Hc Ht). cbn.
  repeat split; auto.
Qed.

Lemma loadIndex_memory_hit_witness :
  let env := online 1700000060000 (JsonText (JDoc oneEntryIndex)) in
  let w := sampleWorld sampleIndex 1700000000000 in
  outcomeOf (loadIndex env w) = Ret sampleIndex
  /\ worldOf (loadIndex env w) = w
  /\ eventsOf (loadIndex env w) = []
  /\ ~ In EvFetch (eventsOf (loadIndex env w))
  /\ (forall p, ~ In (EvRead p) (eventsOf (loadIndex env w))).
Proof.
  apply (loadIndex_memory_hit
           (online 1700000060000 (JsonText (JDoc oneEntryIndex)))
           (sampleWorld sampleIndex 1700000000000) sampleIndex).
  - reflexivity.
  - vm_compute. reflexivity.
Defined.

(** C4, at the failing inputs. The memory cache cannot serve, the request
    fails, and the per-user cache file holds the JSON text [null]. The
    file parses, [loadCachedIndex] returns the value from inside its
    [try], and [loadIndex] throws: the bundled file is not even looked
    at, whatever it holds, and nothing becomes the memory cache. *)
Theorem loadIndex_null_cache_file_hides_bundle (env : Env) (w : World) :
  stale env w ->
  fetchFails env ->
  cacheFile w = Readable (JsonText JNull) ->
  loadIndex env w
  = (Throw IndexNotAvailable, w,
     [EvFetch; EvLog; EvExists CACHE_INDEX_PATH; EvRead CACHE_INDEX_PATH]).
Proof.
  intros Hs Hfail Hc.
  destruct (loadIndex_stale env w Hs) as (w1 & evs1 & evs2 & Hf & Hd & Hl).
  rewrite (fetchRemoteIndex_failed env w Hfail) in Hf.
  injection Hf as Hr <- <-. rewrite <- Hr in Hl.
  assert (Hdisk : loadCachedIndex w
                  = (Ret JNull, w,
                     [EvExists CACHE_INDEX_PATH; EvRead CACHE_INDEX_PATH])).
  { destruct w as [c t d cf bf]. cbn in Hc. subst cf. reflexivity. }
  rewrite Hdisk in Hd. injection Hd as Hv <-. rewrite <- Hv in Hl. exact Hl.
Qed.

Lemma loadIndex_null_cache_file_hides_bundle_witness :
  let w := initialWorld true (Readable (JsonText JNull))
                        (Readable (JsonText (JDoc oneEntryIndex))) in
  loadIndex (offline 1700000000000) w
  = (Throw IndexNotAvailable, w,
     [EvFetch; EvLog; EvExists CACHE_INDEX_PATH; EvRead CACHE_INDEX_PATH]).
Proof.
  apply (loadIndex_null_cache_file_hides_bundle
           (offline 1700000000000)
           (initialWorld true (Readable (JsonText JNull))
                         (Readable (JsonText (JDoc oneEntryIndex))))).
  - left. reflexivity.
  - exact I.
  - reflexivity.
Defined.

(** C5, at failing inputs. Whenever the memory cache cannot serve, the
    request fails, and the per-user cache file holds the JSON text
    [null], [loadIndex] throws "index not available" although the bundled
    file yields an index. *)
Theorem loadIndex_unavailable_despite_bundle
    (env : Env) (w : World) (index : DocsIndex) :
  stale env w ->
  fetchFails env ->
  cacheFile w = Readable (JsonText JNull) ->
  bundledFile w = Readable (JsonText (JDoc index)) ->
  parsed (bundledFile w) = Some (JDoc index)
  /\ outcomeOf (loadIndex env w) = Throw IndexNotAvailable.
Proof.
  intros Hs Hfail Hc Hb. split; [rewrite Hb; reflexivity|].
  apply loadIndex_throws_iff. split; [exact Hs|].
  rewrite (fetchRemoteIndex_failed env w Hfail).
  split.
  - unfold remoteValue. unfold fetchFails in Hfail.
    destruct (fetchResult env) as [|[] [|j]]; try reflexivity. destruct Hfail.
  - cbn. unfold diskValue. rewrite Hc. reflexivity.
Qed.

Lemma loadIndex_unavailable_despite_bundle_witness :
  let env := offline 1700000000000 in
  let w := initialWorld true (Readable (JsonText JNull))
                        (Readable (JsonText (JDoc sampleIndex))) in
  parsed (bundledFile w) = Some (JDoc sampleIndex)
  /\ outcomeOf (loadIndex env w) = Throw IndexNotAvailable.
Proof.
  apply (loadIndex_unavailable_despite_bundle
           (offline 1700000000000)
           (initialWorld true (Readable (JsonText JNull))
                         (Readable (JsonText (JDoc sampleIndex))))
           sampleIndex).
  - left. reflexivity.
  - exact I.
  - reflexivity.
  - reflexivity.
Defined.

(** How such a cache file comes about: the remote answers 200 with the
    body [null]. [fetchRemoteIndex] writes the text to the cache file
    before handing the value back, [loadIndex] takes the falsy value for
    a failed fetch, and the disk fallback reads the file just written. *)
Example null_body_poisons_cache :
  loadIndex (online 1700000000000 (JsonText JNull))
            (initialWorld false Missing (Readable (JsonText (JDoc oneEntryIndex))))
  = (Throw IndexNotAvailable,
     initialWorld true (Readable (JsonText JNull))
                  (Readable (JsonText (JDoc oneEntryIndex))),
     [EvFetch; EvExists CACHE_DIR; EvMkdir; EvWrite (JsonText JNull);
      EvExists CACHE_INDEX_PATH; EvRead CACHE_INDEX_PATH]).
Proof. reflexivity. Qed.

(** C9. After a successful fetch, whatever happens to the write of the
    cache file (the directory cannot be created, the file cannot be
    written, or both go through), nothing of it reaches the caller:
    [fetchRemoteIndex] returns the fetched index, and [loadIndex] caches
    it with the time of the call and returns it. The cache file holds the
    fetched text when the write went through and is untouched otherwise. *)
Theorem persist_failure_is_swallowed (env : Env) (w : World) (index : DocsIndex) :
  fetchResult env = Status true (JsonText (JDoc index)) ->
  stale env w ->
  outcomeOf (fetchRemoteIndex env w) = Ret (JDoc index)
  /\ outcomeOf (loadIndex env w) = Ret index
  /\ cachedIndex (worldOf (loadIndex env w)) = JDoc index
  /\ lastFetchTime (worldOf (loadIndex env w)) = dateNow env
  /\ cacheFile (worldOf (loadIndex env w)) =
     (if persisted env w then Readable (JsonText (JDoc index)) else cacheFile w).
Proof.
  intros Hfetch Hs.
  destruct (fetchRemoteIndex_persist env w (JDoc index) Hfetch)
    as (w' & evs & Hf & _ & _ & _ & Hfile).
  destruct (loadIndex_stale env w Hs) as (w1 & evs1 & evs2 & Hf1 & _ & Hl).
  assert (Hv : remoteValue env = JDoc index)
    by (unfold remoteValue; rewrite Hfetch; reflexivity).
  rewrite Hv in Hf1, Hl. rewrite Hf in Hf1. injection Hf1 as <- _.
  rewrite Hl, Hf. cbn. auto.
Qed.

Lemma persist_failure_is_swallowed_witness :
  let env := {| dateNow := 1700000000000;
                fetchResult := Status true (JsonText (JDoc sampleIndex));
                mkdirOk := false; writeOk := false |} in
  let w := initialWorld false Missing Missing in
  outcomeOf (fetchRemoteIndex env w) = Ret (JDoc sampleIndex)
  /\ outcomeOf (loadIndex env w) = Ret sampleIndex
  /\ cachedIndex (worldOf (loadIndex env w)) = JDoc sampleIndex
  /\ lastFetchTime (worldOf (loadIndex env w)) = dateNow env
  /\ cacheFile (worldOf (loadIndex env w)) =
     (if persisted env w then Readable (JsonText (JDoc sampleIndex))
      else cacheFile w).
Proof.
  apply (persist_failure_is_swallowed
           {| dateNow := 1700000000000;
              fetchResult := Status true (JsonText (JDoc sampleIndex));
              mkdirOk := false; writeOk := false |}
           (initialWorld false Missing Missing) sampleIndex).
  - reflexivity.
  - left. reflexivity.
Defined.

Lemma diskOffers_value (w : World) (index : DocsIndex) :
  diskOffers w index <-> diskValue w = JDoc index.
Proof.
  unfold diskOffers, diskValue.
  destruct (parsed (cacheFile w)) as [j|].
  - split; [intros [H|[H _]]; congruence|intros ->; left; reflexivity].
  - destruct (parsed (bundledFile w)) as [j|].
    + split; [intros [H|[_ H]]; congruence|intros ->; right; auto].
    + split; [intros [H|[_ H]]; discriminate|discriminate].
Qed.

(** C10, as the code has it. In a state of the process with an empty
    memory cache, on a disk that has an index for [loadCachedIndex] to
    return, [loadIndexSync] returns that index and stores it in
    [cachedIndex] while [lastFetchTime] keeps its value, which is still
    the initial 0. A call of [loadIndex] right after it compares the
    clock with that 0: at a clock reading of [CACHE_TTL] or more (one
    hour past the epoch) it does not return from the memory cache and
    sends the request; at an earlier reading it returns the cached index
    without any I/O. The disk fallback inside [loadIndex], on the same
    state, stamps the time of the call instead. *)
Theorem loadIndexSync_keeps_time (w : World) (index : DocsIndex) :
  reachable w ->
  cachedIndex w = JNull ->
  diskOffers w index ->
  outcomeOf (loadIndexSync w) = Ret index
  /\ cachedIndex (worldOf (loadIndexSync w)) = JDoc index
  /\ lastFetchTime (worldOf (loadIndexSync w)) = lastFetchTime w
  /\ lastFetchTime w = 0
  /\ (forall env,
        CACHE_TTL <= dateNow env ->
        exists evs,
          eventsOf (loadIndex env (worldOf (loadIndexSync w))) = EvFetch :: evs)
  /\ (forall env,
        dateNow env < CACHE_TTL ->
        loadIndex env (worldOf (loadIndexSync w))
        = (Ret index, worldOf (loadIndexSync w), []))
  /\ (forall env,
        fetchFails env ->
        outcomeOf (loadIndex env w) = Ret index
        /\ lastFetchTime (worldOf (loadIndex env w)) = dateNow env).
Proof.
  intros Hr Hc Hd. apply diskOffers_value in Hd.
  pose proof (reachable_empty_cache w Hr Hc) as H0.
  destruct (loadIndexSync_spec w) as (evs & Hsync).
  rewrite Hc, Hd in Hsync. rewrite Hsync.
  cbn [outcomeOf worldOf fst snd withMemory cachedIndex lastFetchTime].
  split; [reflexivity|]. split; [reflexivity|]. split; [reflexivity|].
  split; [exact H0|]. split; [|split].
  - intros env Hnow.
    assert (Hs : stale env (withMemory w (JDoc index) (lastFetchTime w)))
      by (right; cbn [withMemory lastFetchTime]; lia).
    destruct (loadIndex_stale env _ Hs) as (w1 & evs1 & evs2 & _ & _ & Hl).
    rewrite Hl.
    destruct (remoteValue env); [destruct (diskValue w1)|]; cbn; eauto.
  - intros env Hnow. apply loadIndex_fresh; [reflexivity|].
    cbn [withMemory lastFetchTime]. lia.
  - intros env Hfail.
    destruct (loadIndex_disk_fallback env w index) as (evs' & -> & _); auto.
    left; exact Hc.
Qed.

Lemma loadIndexSync_keeps_time_witness :
  let w := initialWorld true (Readable (JsonText (JDoc sampleIndex))) Missing in
  outcomeOf (loadIndexSync w) = Ret sampleIndex
  /\ cachedIndex (worldOf (loadIndexSync w)) = JDoc sampleIndex
  /\ lastFetchTime (worldOf (loadIndexSync w)) = lastFetchTime w
  /\ lastFetchTime w = 0
  /\ (forall env,
        CACHE_TTL <= dateNow env ->
        exists evs,
          eventsOf (loadIndex env (worldOf (loadIndexSync w))) = EvFetch :: evs)
  /\ (forall env,
        dateNow env < CACHE_TTL ->
        loadIndex env (worldOf (loadIndexSync w))
        = (Ret sampleIndex, worldOf (loadIndexSync w), []))
  /\ (forall env,
        fetchFails env ->
        outcomeOf (loadIndex env w) = Ret sampleIndex
        /\ lastFetchTime (worldOf (loadIndex env w)) = dateNow env).
Proof.
  apply (loadIndexSync_keeps_time
           (initialWorld true (Readable (JsonText (JDoc sampleIndex))) Missing)
           sampleIndex).
  - apply reach_start.
  - reflexivity.
  - left. reflexivity.
Defined.

(** C10 as worded fails on the clock: the state is that of a process just
    started on a disk whose cache file holds an index, and the call of
    [loadIndex] right after [loadIndexSync] is made while the clock reads
    3599999, less than an hour past the epoch. The time stamp 0 then
    counts as fresh: the index is returned from the memory cache and no
    request is sent. *)
Lemma loadIndexSync_early_clock_counterexample :
  let w := initialWorld true (Readable (JsonText (JDoc sampleIndex))) Missing in
  let env := online 3599999 (JsonText (JDoc oneEntryIndex)) in
  reachable w
  /\ cachedIndex w = JNull
  /\ outcomeOf (loadIndexSync w) = Ret sampleIndex
  /\ lastFetchTime (worldOf (loadIndexSync w)) = 0
  /\ loadIndex env (worldOf (loadIndexSync w))
     = (Ret sampleIndex, worldOf (loadIndexSync w), [])
  /\ ~ In EvFetch (eventsOf (loadIndex env (worldOf (loadIndexSync w)))).
Proof.
  split; [apply reach_start|].
  repeat (split; [reflexivity|]). intros [].
Qed.

(** The disk source that C10 leaves aside: with the JSON text [null] in
    the cache file, [loadIndexSync] throws although the bundled file
    holds an index, for the reason shown under C4 and C5. *)
Example loadIndexSync_null_cache_file :
  let w := initialWorld true (Readable (JsonText JNull))
                        (Readable (JsonText (JDoc sampleIndex))) in
  parsed (bundledFile w) = Some (JDoc sampleIndex)
  /\ loadIndexSync w
     = (Throw IndexNotLoaded, w,
        [EvExists CACHE_INDEX_PATH; EvRead CACHE_INDEX_PATH]).
Proof. split; reflexivity. Qed.

(** ** Facts about the JavaScript primitives *)

Section SortFacts.
Context {A : Type} (cmp : A -> A -> Z).

Lemma insert_perm (x : A) (l : list A) :
  Permutation (JS.insert cmp x l) (x :: l).
Proof.
  induction l as [|y l IH]; cbn; [reflexivity|].
  destruct (cmp x y <=? 0); [reflexivity|].
  rewrite IH. apply perm_swap.
Qed.

Lemma sort_perm (l : list A) : Permutation (JS.sort cmp l) l.
Proof.
  induction l as [|x l IH]; [reflexivity|].
  change (JS.sort cmp (x :: l)) with (JS.insert cmp x (JS.sort cmp l)).
  rewrite insert_perm. constructor. exact IH.
Qed.

(** Insertion only jumps over elements that the comparator puts before
    the new one, so a class of elements that the comparator cannot tell
    apart keeps its order. *)
Lemma insert_filter (p : A -> bool) (x : A) (l : list A) :
  (p x = true -> forall y, 0 < cmp x y -> p y = false) ->
  filter p (JS.insert cmp x l) = filter p (x :: l).
Proof.
  intros Hp. induction l as [|y l IH]; cbn; [reflexivity|].
  destruct (cmp x y <=? 0) eqn:Hxy; [reflexivity|].
  cbn. rewrite IH. cbn.
  destruct (p x) eqn:Hx; [|reflexivity].
  rewrite (Hp eq_refl y); [reflexivity|].
  apply Z.leb_gt in Hxy. exact Hxy.
Qed.

Lemma sort_filter (p : A -> bool) (l : list A) :
  (forall x y, p x = true -> 0 < cmp x y -> p y = false) ->
  filter p (JS.sort cmp l) = filter p l.
Proof.
  intros Hp. induction l as [|x l IH]; [reflexivity|].
  change (JS.sort cmp (x :: l)) with (JS.insert cmp x (JS.sort cmp l)).
  rewrite insert_filter by (intros Hx y; apply Hp; exact Hx).
  cbn [filter]. rewrite IH. reflexivity.
Qed.

Section Total.
Hypothesis cmp_total : forall x y, cmp x y <= 0 \/ cmp y x <= 0.

Let before (x y : A) : Prop := cmp x y <= 0.

Lemma insert_sorted (x : A) (l : list A) :
  Sorted before l -> Sorted before (JS.insert cmp x l).
Proof.
  induction 1 as [|y l Hl IH Hhd]; cbn; [repeat constructor|].
  destruct (cmp x y <=? 0) eqn:Hxy.
  - apply Z.leb_le in Hxy. repeat constructor; assumption.
  - apply Z.leb_gt in Hxy. constructor; [exact IH|].
    assert (Hyx : before y x) by (destruct (cmp_total x y); [lia|assumption]).
    destruct Hhd as [|z l Hyz]; cbn; [constructor; exact Hyx|].
    destruct (cmp x z <=? 0); constructor; assumption.
Qed.

Lemma sort_sorted (l : list A) : Sorted before (JS.sort cmp l).
Proof.
  induction l as [|x l IH]; [constructor|].
  change (JS.sort cmp (x :: l)) with (JS.insert cmp x (JS.sort cmp l)).
  apply insert_sorted. exact IH.
Qed.
End Total.
End SortFacts.

Lemma truthy_iff (s : string) : JS.truthy s = true <-> s <> "".
Proof. destruct s; cbn; split; congruence. Qed.

Lemma sort_map {A B} (f : A -> B) (cmp : B -> B -> Z) (l : list A) :
  JS.sort cmp (map f l) = map f (JS.sort (fun a b => cmp (f a) (f b)) l).
Proof.
  induction l as [|x l IH]; [reflexivity|].
  cbn [map].
  change (JS.sort cmp (f x :: map f l))
    with (JS.insert cmp (f x) (JS.sort cmp (map f l))).
  change (JS.sort (fun a b => cmp (f a) (f b)) (x :: l))
    with (JS.insert (fun a b => cmp (f a) (f b)) x
            (JS.sort (fun a b => cmp (f a) (f b)) l)).
  rewrite IH. generalize (JS.sort (fun a b => cmp (f a) (f b)) l).
  intros s. induction s as [|y s IHs]; cbn; [reflexivity|].
  destruct (cmp (f x) (f y) <=? 0); cbn; [reflexivity|].
  rewrite IHs. reflexivity.
Qed.

Lemma filter_map_comm {A B} (f : A -> B) (p : B -> bool) (l : list A) :
  filter p (map f l) = map f (filter (fun a => p (f a)) l).
Proof.
  induction l as [|x l IH]; cbn; [reflexivity|].
  destruct (p (f x)); cbn; rewrite IH; reflexivity.
Qed.

Lemma slice0_map {A B} (f : A -> B) (l : list A) (n : Z) :
  map f (JS.slice0 l n) = JS.slice0 (map f l) n.
Proof.
  unfold JS.slice0. rewrite length_map.
  destruct (n <? 0); symmetry; apply firstn_map.
Qed.

Lemma slice0_firstn {A} (l : list A) (n : Z) :
  0 <= n -> JS.slice0 l n = firstn (Z.to_nat n) l.
Proof.
  intros Hn. unfold JS.slice0.
  destruct (n <? 0) eqn:H; [apply Z.ltb_lt in H; lia|reflexivity].
Qed.

(** ** The search: scores and ranking *)

Lemma scoreTerm_points (entry : DocEntry) (score : Z) (term : string) :
  scoreTerm entry (searchableTextOf entry) score term
  = score + termPoints entry term.
Proof.
  unfold scoreTerm, termPoints, bonus.
  repeat match goal with |- context [if ?b then _ else _] => destruct b end;
    lia.
Qed.

Lemma scoreLoop_sum (entry : DocEntry) (terms : list string) (score : Z) :
  fold_left (scoreTerm entry (searchableTextOf entry)) terms score
  = score + sumZ (map (termPoints entry) terms).
Proof.
  revert score. induction terms as [|t terms IH]; intros score.
  - cbn. lia.
  - cbn [fold_left map]. rewrite IH, scoreTerm_points.
    unfold sumZ. cbn [fold_right]. lia.
Qed.

Lemma termPoints_nonneg (entry : DocEntry) (term : string) :
  0 <= termPoints entry term.
Proof.
  unfold termPoints, bonus.
  repeat match goal with |- context [if ?b then _ else _] => destruct b end;
    lia.
Qed.

(** [searchDocs] returns a prefix of the ranking. *)
Lemma searchIn_ranked (index : DocsIndex) (query : string) (limit : Z) :
  searchIn index query limit = JS.slice0 (ranked index query) limit.
Proof.
  unfold searchIn, ranked.
  rewrite filter_map_comm, sort_map, slice0_map, map_map. cbn [fst snd].
  rewrite map_id. reflexivity.
Qed.

Lemma searchDocs_spec (env : Env) (w w' : World) (index : DocsIndex)
    (evs : list Event) (query : string) (limit : option Z) :
  loadIndex env w = (Ret index, w', evs) ->
  searchDocs env query limit w
  = (Ret (searchIn index query (limitOrDefault limit)), w', evs).
Proof.
  intros H. unfold searchDocs. rewrite (bind_Ret _ _ _ _ _ _ H).
  cbn. rewrite app_nil_r. reflexivity.
Qed.

Lemma ranked_perm (index : DocsIndex) (query : string) :
  Permutation (ranked index query) (filter (positive query) (entries index)).
Proof. apply sort_perm. Qed.

Lemma ranked_sorted (index : DocsIndex) (query : string) :
  StronglySorted (fun a b => scoreOf query b <= scoreOf query a)
                 (ranked index query).
Proof.
  apply Sorted_StronglySorted.
  - intros a b c Hab Hbc. lia.
  - pose proof (sort_sorted (fun a b => scoreOf query b - scoreOf query a)) as H.
    eapply Sorted_ind with (P := fun l =>
      Sorted (fun a b => scoreOf query b <= scoreOf query a) l);
      [constructor| |apply H; intros x y; lia].
    intros a l _ IH Hhd. constructor; [exact IH|].
    destruct Hhd; constructor. lia.
Qed.

(** Entries of one score come out in the order of the index. *)
Lemma ranked_stable (index : DocsIndex) (query : string) (k : Z) :
  0 < k ->
  filter (fun e => scoreOf query e =? k) (ranked index query)
  = filter (fun e => scoreOf query e =? k) (entries index).
Proof.
  intros Hk. unfold ranked. rewrite sort_filter.
  - induction (entries index) as [|e l IH]; [reflexivity|].
    cbn [filter].
    destruct (positive query e) eqn:Hp; cbn [filter]; rewrite IH;
      [reflexivity|].
    destruct (scoreOf query e =? k) eqn:He; [|reflexivity].
    apply Z.eqb_eq in He. unfold positive in Hp.
    rewrite Z.gtb_ltb in Hp. apply Z.ltb_ge in Hp. lia.
  - intros x y Hx Hxy. apply Z.eqb_eq in Hx. apply Z.eqb_neq. lia.
Qed.

(** ** Terms and the text they are looked up in *)

Lemma spaceFree_app (a b : string) :
  spaceFree a -> spaceFree b -> spaceFree (a ++ b).
Proof.
  induction a as [|c a IH]; cbn; [auto|]. intros [Hc Ha] Hb. auto.
Qed.

Lemma splitFrom_words (s cur : string) (inRun : bool) :
  spaceFree cur ->
  forall t, In t (JS.splitFrom cur inRun s) -> spaceFree t.
Proof.
  revert cur inRun. induction s as [|c s IH]; intros cur inRun Hcur t; cbn.
  - intros [<-|[]]. exact Hcur.
  - destruct (JS.isSpace c) eqn:Hc.
    + destruct inRun; cbn.
      * apply IH. exact I.
      * intros [<-|H]; [exact Hcur|]. revert H. apply IH. exact I.
    + apply IH. apply spaceFree_app; [exact Hcur|]. cbn. auto.
Qed.

(** A query term is never empty and holds no white space. *)
Lemma queryTerms_words (query term : string) :
  In term (queryTermsOf query) -> term <> "" /\ spaceFree term.
Proof.
  unfold queryTermsOf. rewrite filter_In. intros [Hin Ht]. split.
  - apply truthy_iff. exact Ht.
  - revert Hin. apply splitFrom_words. exact I.
Qed.

Lemma spaceFree_withoutSpace (s : string) :
  spaceFree s -> withoutUnit " "%char s.
Proof.
  induction s as [|c s IH]; cbn; [auto|]. intros [Hc Hs].
  split; [|apply IH; exact Hs]. intros ->. discriminate.
Qed.

Lemma prefix_iff (t s : string) :
  String.prefix t s = true <-> exists b, s = t ++ b.
Proof.
  revert s. induction t as [|c t IH]; intros s.
  - destruct s; cbn; split; eauto.
  - destruct s as [|c' s]; cbn;
      [split; [discriminate|intros (b & H); discriminate]|].
    destruct (ascii_dec c c') as [<-|Hne].
    + rewrite IH. split; intros (b & H); exists b; congruence.
    + split; [discriminate|]. intros (b & H). congruence.
Qed.

Lemma includes_unfold (s t : string) :
  JS.includes s t
  = if String.prefix t s then true
    else match s with
         | EmptyString => false
         | String _ s' => JS.includes s' t
         end.
Proof. destruct s; reflexivity. Qed.

Lemma includes_iff (s t : string) :
  JS.includes s t = true <-> exists a b, s = a ++ t ++ b.
Proof.
  induction s as [|c s IH]; rewrite includes_unfold.
  - destruct (String.prefix t "") eqn:Hp.
    + split; [|reflexivity]. intros _. apply prefix_iff in Hp.
      destruct Hp as (b & Hb). exists "", b. exact Hb.
    + split; [discriminate|]. intros (a & b & H).
      destruct a; [|discriminate]. cbn in H.
      assert (Hp' : String.prefix t "" = true) by (apply prefix_iff; eauto).
      congruence.
  - destruct (String.prefix t (String c s)) eqn:Hp.
    + split; [|reflexivity]. intros _. apply prefix_iff in Hp.
      destruct Hp as (b & Hb). exists "", b. exact Hb.
    + rewrite IH. split.
      * intros (a & b & H). exists (String c a), b. cbn. congruence.
      * intros (a & b & H). destruct a as [|c' a].
        -- cbn in H.
           assert (Hp' : String.prefix t (String c s) = true)
             by (apply prefix_iff; eauto).
           congruence.
        -- cbn in H. injection H as _ H. eauto.
Qed.

Lemma append_assoc (a b c : string) : (a ++ b) ++ c = a ++ b ++ c.
Proof. induction a as [|x a IH]; cbn; [reflexivity|]. rewrite IH. reflexivity. Qed.

(** A string without the unit [c] that starts a text with a [c] in it
    ends before that [c]. *)
Lemma prefix_before_unit (c : ascii) (t y a b : string) :
  withoutUnit c t ->
  t ++ y = a ++ String c b ->
  exists a', a = t ++ a'.
Proof.
  revert a. induction t as [|x t IH]; intros a Ht H; cbn in *.
  - eauto.
  - destruct Ht as [Hx Ht]. destruct a as [|x' a]; cbn in H.
    + injection H as H _. congruence.
    + injection H as <- H. destruct (IH a Ht H) as (a' & ->). eauto.
Qed.

(** A term without the separator lies on one side of it. *)
Lemma includes_joined (c : ascii) (a b t : string) :
  t <> "" -> withoutUnit c t ->
  JS.includes (a ++ String c b) t = (JS.includes a t || JS.includes b t)%bool.
Proof.
  intros Hne Ht. apply eq_true_iff_eq.
  rewrite orb_true_iff, !includes_iff. split.
  - intros (x & y & H). revert x H.
    induction a as [|c' a IH]; intros x H.
    + right. destruct x as [|x0 x]; cbn in H.
      * destruct t as [|t0 t]; [congruence|].
        cbn in H, Ht. injection H as H _. destruct Ht. congruence.
      * injection H as _ H. eauto.
    + destruct x as [|x0 x].
      * left. change ("" ++ t ++ y) with (t ++ y) in H.
        symmetry in H. destruct (prefix_before_unit c t y _ b Ht H) as (a' & Ha).
        exists "", a'. exact Ha.
      * cbn in H. injection H as _ H.
        destruct (IH x H) as [(x' & y' & ->)|Hb]; [|right; exact Hb].
        left. exists (String c' x'), y'. reflexivity.
  - intros [(x & y & ->)|(x & y & ->)].
    + exists x, (y ++ String c b). rewrite !append_assoc. reflexivity.
    + exists (a ++ String c x), y. rewrite !append_assoc. reflexivity.
Qed.

Lemma toLowerCase_app (a b : string) :
  JS.toLowerCase (a ++ b) = JS.toLowerCase a ++ JS.toLowerCase b.
Proof. induction a as [|c a IH]; cbn; [reflexivity|]. rewrite IH. reflexivity. Qed.

(** The last bonus: the term occurs "anywhere" exactly when it occurs in
    one of the six lowercased fields, since the fields are joined by
    spaces and no term holds a space. *)
Lemma anywhere_is_some_field (query term : string) (entry : DocEntry) :
  In term (queryTermsOf query) ->
  JS.includes (searchableTextOf entry) term
  = (JS.includes (JS.toLowerCase (title entry)) term
     || JS.includes (JS.toLowerCase (description entry)) term
     || JS.includes (JS.toLowerCase (path entry)) term
     || JS.includes (JS.toLowerCase (vendor entry)) term
     || JS.includes (JS.toLowerCase (model entry)) term
     || JS.includes (JS.toLowerCase (capability entry)) term)%bool.
Proof.
  intros Hin. destruct (queryTerms_words query term Hin) as [Hne Hsf].
  apply spaceFree_withoutSpace in Hsf.
  unfold searchableTextOf. cbn [JS.join].
  rewrite !toLowerCase_app.
  change (JS.toLowerCase " ") with " ".
  repeat match goal with
         | |- context [JS.includes (?a ++ " " ++ ?b) term] =>
             change (a ++ " " ++ b) with (a ++ String " "%char b);
             rewrite (includes_joined " "%char a b term Hne Hsf)
         end.
  rewrite !orb_assoc. reflexivity.
Qed.

(** A query of white space only has no term, and every entry scores 0. *)
Example blank_query_scores_nothing :
  queryTermsOf "   " = [] /\ scoreOf "   " gpt4o = 0
  /\ searchIn sampleIndex "   " 20 = [].
Proof. repeat split. Qed.

(** ** The search: the properties of the specification *)

(** C2, as the code has it. The score of an entry is the sum, over the
    terms of the query (its lowercased text split at white space, empty
    pieces dropped), of the bonuses the term earns, each on its own: 10
    when the lowercased model includes the term, 8 for the vendor, 5 for
    the title, 4 for the capability, 2 for the description, and 1 when
    the term occurs in the lowercased text made of title, description,
    path, vendor, model and capability joined by single spaces. *)
Theorem score_is_sum_of_bonuses (query : string) (entry : DocEntry) :
  scoreEntry (queryTermsOf query) entry
  = (entry, sumZ (map (termPoints entry) (queryTermsOf query))).
Proof.
  unfold scoreEntry. rewrite scoreLoop_sum. reflexivity.
Qed.

(** C2 as worded fails: with the six fields simply concatenated, the term
    "quickstart" occurs across the end of the title "Quick" and the start
    of the description "start guide" and would earn one point; the code
    joins the fields with spaces and gives the entry no point. *)
Lemma score_concatenation_counterexample :
  scoreOf "quickstart" quickStart = 0
  /\ scoreSpec "quickstart" quickStart = 1
  /\ scoreOf "quickstart" quickStart <> scoreSpec "quickstart" quickStart.
Proof. repeat split. discriminate. Qed.

(** C3, for a limit that is not negative. When the index loads,
    [searchDocs] does not throw, and its result is the first [limit]
    elements (20 when the argument is left out) of a list that holds
    exactly the entries of positive score, ordered by descending score,
    entries of equal score standing in the order of the index; so the
    result never has more than [limit] elements and is empty when no entry
    scores above zero. [rest] is what the truncation drops. *)
Theorem searchDocs_ranking (env : Env) (w w' : World) (index : DocsIndex)
    (evs : list Event) (query : string) (limit : option Z) :
  loadIndex env w = (Ret index, w', evs) ->
  0 <= limitOrDefault limit ->
  exists results rest,
    searchDocs env query limit w = (Ret results, w', evs)
    /\ Z.of_nat (length results) <= limitOrDefault limit
    /\ (rest = [] \/ Z.of_nat (length results) = limitOrDefault limit)
    /\ Permutation (results ++ rest) (filter (positive query) (entries index))
    /\ StronglySorted (fun a b => scoreOf query b <= scoreOf query a)
                      (results ++ rest)
    /\ (forall k, 0 < k ->
          filter (fun e => scoreOf query e =? k) (results ++ rest)
          = filter (fun e => scoreOf query e =? k) (entries index))
    /\ ((forall e, In e (entries index) -> scoreOf query e <= 0) ->
        results = [])
    /\ limitOrDefault None = 20.
Proof.
  intros Hload Hlimit.
  set (n := Z.to_nat (limitOrDefault limit)).
  exists (firstn n (ranked index query)), (skipn n (ranked index query)).
  rewrite (searchDocs_spec env w w' index evs query limit Hload).
  rewrite searchIn_ranked, slice0_firstn by exact Hlimit. fold n.
  rewrite firstn_skipn, length_firstn.
  split; [reflexivity|]. split; [lia|]. split.
  { destruct (Nat.le_gt_cases n (length (ranked index query))) as [H|H].
    - right. lia.
    - left. apply skipn_all2. lia. }
  split; [apply ranked_perm|]. split; [apply ranked_sorted|].
  split; [intros k Hk; apply ranked_stable; exact Hk|].
  split; [|reflexivity].
  intros Hnone.
  assert (Hempty : filter (positive query) (entries index) = []).
  { induction (entries index) as [|e l IH]; [reflexivity|]. cbn [filter].
    assert (He : positive query e = false).
    { unfold positive. rewrite Z.gtb_ltb. apply Z.ltb_ge.
      apply Hnone. left. reflexivity. }
    rewrite He. apply IH. intros e' He'. apply Hnone. right. exact He'. }
  pose proof (ranked_perm index query) as Hp. rewrite Hempty in Hp.
  apply Permutation_sym, Permutation_nil in Hp. rewrite Hp. apply firstn_nil.
Qed.

Lemma searchDocs_ranking_witness :
  let env := offline 1700000060000 in
  let w := sampleWorld sampleIndex 1700000000000 in
  exists results rest,
    searchDocs env "gpt-4o image" (Some 1) w = (Ret results, w, [])
    /\ Z.of_nat (length results) <= limitOrDefault (Some 1)
    /\ (rest = [] \/ Z.of_nat (length results) = limitOrDefault (Some 1))
    /\ Permutation (results ++ rest)
                   (filter (positive "gpt-4o image") (entries sampleIndex))
    /\ StronglySorted
         (fun a b => scoreOf "gpt-4o image" b <= scoreOf "gpt-4o image" a)
         (results ++ rest)
    /\ (forall k, 0 < k ->
          filter (fun e => scoreOf "gpt-4o image" e =? k) (results ++ rest)
          = filter (fun e => scoreOf "gpt-4o image" e =? k)
                   (entries sampleIndex))
    /\ ((forall e, In e (entries sampleIndex) ->
                   scoreOf "gpt-4o image" e <= 0) ->
        results = [])
    /\ limitOrDefault None = 20.
Proof.
  apply (searchDocs_ranking
           (offline 1700000060000) (sampleWorld sampleIndex 1700000000000)
           (sampleWorld sampleIndex 1700000000000) sampleIndex []
           "gpt-4o image" (Some 1)).
  - reflexivity.
  - vm_compute. discriminate.
Defined.

(** C3 as worded fails for a negative limit: [slice(0, -1)] drops the
    last element only. Two entries match "gpt-4o"; with the limit -1 one
    of them is returned, which is more than -1 elements. *)
Lemma searchDocs_negative_limit_counterexample :
  let env := offline 1700000060000 in
  let w := sampleWorld sampleIndex 1700000000000 in
  outcomeOf (searchDocs env "gpt-4o" (Some (-1)) w) = Ret [gpt4o]
  /\ ~ (Z.of_nat (length [gpt4o]) <= -1).
Proof. split; [reflexivity|]. cbn. lia. Qed.

(** ** Look-up by path *)

Lemma find_path_none (docPath : string) (l : list DocEntry) :
  find (fun e => String.eqb (path e) docPath) l = None
  <-> forall e, In e l -> path e <> docPath.
Proof.
  split.
  - intros H e He. apply (find_none _ _ H) in He.
    apply String.eqb_neq. exact He.
  - intros H. induction l as [|e l IH]; [reflexivity|]. cbn.
    destruct (String.eqb_spec (path e) docPath) as [Heq|Hne].
    + exfalso. apply (H e); [left; reflexivity|exact Heq].
    + apply IH. intros e' He'. apply H. right. exact He'.
Qed.

Lemma find_unique_path (e : DocEntry) (l : list DocEntry) :
  NoDup (map path l) -> In e l ->
  find (fun e' => String.eqb (path e') (path e)) l = Some e.
Proof.
  induction l as [|x l IH]; intros Hnd Hin; [destruct Hin|].
  cbn in Hnd. inversion Hnd as [|? ? Hx Hl]; subst. cbn.
  destruct Hin as [->|Hin].
  - rewrite String.eqb_refl. reflexivity.
  - destruct (String.eqb_spec (path x) (path e)) as [Heq|Hne].
    + exfalso. apply Hx. rewrite Heq. apply in_map. exact Hin.
    + apply IH; assumption.
Qed.

(** C6. When the index loads, [getDocContent] looks for an entry whose
    path is the argument, character for character. If there is one, it
    returns the content of such an entry together with the entry itself
    (the entry of that path, paths being unique in an index); it throws
    "document not found" if and only if no entry has exactly that path. *)
Theorem getDocContent_exact_path (env : Env) (w w' : World) (index : DocsIndex)
    (evs : list Event) (docPath : string) :
  loadIndex env w = (Ret index, w', evs) ->
  ((exists e, In e (entries index) /\ path e = docPath) ->
   exists entry,
     getDocContent env docPath w = (Ret (content entry, entry), w', evs)
     /\ In entry (entries index) /\ path entry = docPath)
  /\ (NoDup (map path (entries index)) ->
      forall e, In e (entries index) -> path e = docPath ->
      getDocContent env docPath w = (Ret (content e, e), w', evs))
  /\ (outcomeOf (getDocContent env docPath w) = Throw (DocumentNotFound docPath)
      <-> forall e, In e (entries index) -> path e <> docPath)
  /\ ((forall e, In e (entries index) -> path e <> docPath) ->
      getDocContent env docPath w = (Throw (DocumentNotFound docPath), w', evs)).
Proof.
  intros Hload.
  assert (Hrun : getDocContent env docPath w =
    match find (fun e => String.eqb (path e) docPath) (entries index) with
    | None => (Throw (DocumentNotFound docPath), w', evs)
    | Some entry => (Ret (content entry, entry), w', evs)
    end).
  { unfold getDocContent. rewrite (bind_Ret _ _ _ _ _ _ Hload).
    destruct (find _ (entries index)); cbn; rewrite app_nil_r; reflexivity. }
  rewrite Hrun.
  destruct (find (fun e => String.eqb (path e) docPath) (entries index))
    as [entry|] eqn:Hfind.
  - pose proof (find_some _ _ Hfind) as [Hin Hp]. apply String.eqb_eq in Hp.
    repeat split.
    + intros _. exists entry. auto.
    + intros Hnd e He Hpe. subst docPath.
      rewrite <- Hpe in Hfind. rewrite (find_unique_path e _ Hnd He) in Hfind.
      injection Hfind as ->. reflexivity.
    + discriminate.
    + intros Hnone. exfalso. apply (Hnone entry Hin Hp).
    + intros Hnone. exfalso. apply (Hnone entry Hin Hp).
  - pose proof (proj1 (find_path_none docPath _) Hfind) as Hnone.
    repeat split; auto.
    + intros (e & He & Hp). exfalso. apply (Hnone e He Hp).
    + intros Hnd e He Hp. exfalso. apply (Hnone e He Hp).
Qed.

Lemma getDocContent_exact_path_witness :
  let env := offline 1700000060000 in
  let w := sampleWorld sampleIndex 1700000000000 in
  let docPath := "docs/allapi/OpenAI/gpt-4o/official-format/text-to-text-chat" in
  ((exists e, In e (entries sampleIndex) /\ path e = docPath) ->
   exists entry,
     getDocContent env docPath w = (Ret (content entry, entry), w, [])
     /\ In entry (entries sampleIndex) /\ path entry = docPath)
  /\ (NoDup (map path (entries sampleIndex)) ->
      forall e, In e (entries sampleIndex) -> path e = docPath ->
      getDocContent env docPath w = (Ret (content e, e), w, []))
  /\ (outcomeOf (getDocContent env docPath w) = Throw (DocumentNotFound docPath)
      <-> forall e, In e (entries sampleIndex) -> path e <> docPath)
  /\ ((forall e, In e (entries sampleIndex) -> path e <> docPath) ->
      getDocContent env docPath w = (Throw (DocumentNotFound docPath), w, [])).
Proof.
  apply (getDocContent_exact_path
           (offline 1700000060000) (sampleWorld sampleIndex 1700000000000)
           (sampleWorld sampleIndex 1700000000000) sampleIndex []
           "docs/allapi/OpenAI/gpt-4o/official-format/text-to-text-chat").
  reflexivity.
Defined.

Example getDocContent_nonexistent :
  outcomeOf (getDocContent (offline 1700000060000) "nonexistent"
                           (sampleWorld sampleIndex 1700000000000))
  = Throw (DocumentNotFound "nonexistent").
Proof. reflexivity. Qed.

(** ** Ordered sets and maps *)

Lemma setAdd_In (s : JS.OrderedSet) (x y : string) :
  In y (JS.setAdd s x) <-> In y s \/ y = x.
Proof.
  unfold JS.setAdd. destruct (existsb (String.eqb x) s) eqn:H.
  - apply existsb_exists in H. destruct H as (z & Hz & Hxz).
    apply String.eqb_eq in Hxz. subst z.
    split; [auto|]. intros [Hy| ->]; assumption.
  - rewrite in_app_iff. cbn. intuition.
Qed.

Lemma setAdd_NoDup (s : JS.OrderedSet) (x : string) :
  NoDup s -> NoDup (JS.setAdd s x).
Proof.
  intros Hs. unfold JS.setAdd. destruct (existsb (String.eqb x) s) eqn:H.
  - exact Hs.
  - apply NoDup_app; [exact Hs|repeat constructor; intros []|].
    intros z Hz [Heq|[]]. subst z.
    assert (Hex : existsb (String.eqb x) s = true)
      by (apply existsb_exists; exists x; split;
          [exact Hz|apply String.eqb_refl]).
    congruence.
Qed.

Lemma mapHas_In (m : JS.OrderedMap) (k : string) :
  JS.mapHas m k = true <-> In k (map fst m).
Proof.
  unfold JS.mapHas. rewrite existsb_exists, in_map_iff. split.
  - intros (kv & Hin & Heq). apply String.eqb_eq in Heq. eauto.
  - intros (kv & Heq & Hin). exists kv. split; [exact Hin|].
    apply String.eqb_eq. auto.
Qed.

Lemma mapAddTo_keys (m : JS.OrderedMap) (k x : string) :
  map fst (JS.mapAddTo m k x) = map fst m.
Proof.
  induction m as [|[k' s] m IH]; cbn; [reflexivity|].
  destruct (String.eqb k k'); cbn; [reflexivity|]. rewrite IH. reflexivity.
Qed.

Lemma mapAddTo_In (m : JS.OrderedMap) (k x k' : string) (s' : JS.OrderedSet) :
  NoDup (map fst m) ->
  In (k', s') (JS.mapAddTo m k x)
  <-> (k' <> k /\ In (k', s') m)
      \/ (k' = k /\ exists s, In (k, s) m /\ s' = JS.setAdd s x).
Proof.
  induction m as [|[k0 s0] m IH]; intros Hnd; cbn.
  - split; [intros []|]. intros [[_ []]|(_ & s & [] & _)].
  - cbn in Hnd. inversion Hnd as [|? ? Hk0 Hm]; subst.
    destruct (String.eqb_spec k k0) as [<-|Hne]; cbn.
    + split.
      * intros [H|H].
        -- injection H as <- <-. right. split; [reflexivity|].
           exists s0. auto.
        -- destruct (String.eqb_spec k' k) as [->|Hk'].
           ++ exfalso. apply Hk0. apply (in_map fst) in H. exact H.
           ++ left. auto.
      * intros [[Hk' [H|H]]|(-> & s & [H|H] & ->)].
        -- injection H as <- _. congruence.
        -- right. exact H.
        -- injection H as <-. left. reflexivity.
        -- exfalso. apply Hk0. apply (in_map fst) in H. exact H.
    + rewrite (IH Hm). split.
      * intros [H|[[Hk' H]|(-> & s & H & ->)]].
        -- injection H as <- <-. left. split; [congruence|left; reflexivity].
        -- left. auto.
        -- right. split; [reflexivity|]. exists s. auto.
      * intros [[Hk' [H|H]]|(-> & s & [H|H] & ->)].
        -- left. exact H.
        -- right. left. auto.
        -- injection H as <- _. congruence.
        -- right. right. split; [reflexivity|]. exists s. auto.
Qed.

(** ** The grouping loops *)

Section Grouping.
Variables keyOf valOf : DocEntry -> string.
Variable adds : DocEntry -> bool.

Lemma grouped_nil : grouped keyOf valOf adds [] [].
Proof.
  split; [constructor|]. split.
  - intros k. cbn. split; [intros []|intros (e & [] & _)].
  - intros k s [].
Qed.

Lemma groupStep_grouped (seen : list DocEntry) (m : JS.OrderedMap)
    (e : DocEntry) :
  grouped keyOf valOf adds seen m ->
  grouped keyOf valOf adds (seen ++ [e]) (groupStep keyOf valOf adds m e).
Proof.
  intros (Hnd & Hkeys & Hsets). unfold groupStep.
  set (k := keyOf e).
  set (m1 := if negb (JS.mapHas m k) then JS.mapSetNew m k [] else m).
  assert (Hnd1 : NoDup (map fst m1)).
  { unfold m1. destruct (JS.mapHas m k) eqn:Hhas; cbn; [exact Hnd|].
    unfold JS.mapSetNew. rewrite map_app. cbn.
    apply NoDup_app; [exact Hnd|repeat constructor; intros []|].
    intros z Hz [Heq|[]]. subst z. apply mapHas_In in Hz. congruence. }
  assert (Hkeys1 : forall k', In k' (map fst m1) <->
                              exists e', In e' (seen ++ [e]) /\ keyOf e' = k').
  { intros k'. unfold m1. destruct (JS.mapHas m k) eqn:Hhas; cbn.
    - rewrite Hkeys. split.
      + intros (e' & He' & Hk'). exists e'. rewrite in_app_iff. auto.
      + intros (e' & He' & Hk'). apply in_app_iff in He'.
        destruct He' as [He'|[<-|[]]]; [eauto|].
        apply Hkeys. apply mapHas_In. fold k in Hk'. congruence.
    - unfold JS.mapSetNew. rewrite map_app, in_app_iff, Hkeys. cbn. split.
      + intros [(e' & He' & Hk')|[<-|[]]].
        * exists e'. rewrite in_app_iff. auto.
        * exists e. rewrite in_app_iff. cbn. auto.
      + intros (e' & He' & Hk'). apply in_app_iff in He'.
        destruct He' as [He'|[<-|[]]]; [left; eauto|right; left; exact Hk']. }
  assert (Hsets1 : forall k' s, In (k', s) m1 ->
            NoDup s
            /\ forall x, In x s <->
                 exists e', In e' seen /\ keyOf e' = k'
                            /\ adds e' = true /\ valOf e' = x).
  { intros k' s. unfold m1. destruct (JS.mapHas m k) eqn:Hhas; cbn.
    - apply Hsets.
    - unfold JS.mapSetNew. rewrite in_app_iff. cbn.
      intros [H|[H|[]]]; [apply Hsets; exact H|].
      injection H as <- <-. split; [constructor|].
      intros x. split; [intros []|].
      intros (e' & He' & Hk' & _). exfalso.
      assert (Hin : In k (map fst m)) by (apply Hkeys; eauto).
      apply mapHas_In in Hin. congruence. }
  fold m1. destruct (adds e) eqn:Hadds.
  - split; [rewrite mapAddTo_keys; exact Hnd1|].
    split; [intros k'; rewrite mapAddTo_keys; apply Hkeys1|].
    intros k' s' Hin. apply (mapAddTo_In _ _ _ _ _ Hnd1) in Hin.
    destruct Hin as [[Hk' Hin]|(-> & s & Hin & ->)].
    + destruct (Hsets1 _ _ Hin) as [Hs Hx]. split; [exact Hs|].
      intros x. rewrite Hx. split.
      * intros (e' & He' & H). exists e'. rewrite in_app_iff. auto.
      * intros (e' & He' & Hke' & H). apply in_app_iff in He'.
        destruct He' as [He'|[<-|[]]]; [eauto|].
        exfalso. apply Hk'. symmetry. exact Hke'.
    + destruct (Hsets1 _ _ Hin) as [Hs Hx].
      split; [apply setAdd_NoDup; exact Hs|].
      intros x. rewrite setAdd_In, Hx. split.
      * intros [(e' & He' & H)| ->].
        -- exists e'. rewrite in_app_iff. auto.
        -- exists e. rewrite in_app_iff. cbn. auto.
      * intros (e' & He' & Hke' & Ha & Hv). apply in_app_iff in He'.
        destruct He' as [He'|[<-|[]]]; [left; eauto|right; auto].
  - split; [exact Hnd1|]. split; [exact Hkeys1|].
    intros k' s Hin. destruct (Hsets1 _ _ Hin) as [Hs Hx].
    split; [exact Hs|]. intros x. rewrite Hx. split.
    + intros (e' & He' & H). exists e'. rewrite in_app_iff. auto.
    + intros (e' & He' & Hke' & Ha & Hv). apply in_app_iff in He'.
      destruct He' as [He'|[<-|[]]]; [eauto|congruence].
Qed.

Lemma groupLoop_grouped (l seen : list DocEntry) (m : JS.OrderedMap) :
  grouped keyOf valOf adds seen m ->
  grouped keyOf valOf adds (seen ++ l)
          (fold_left (groupStep keyOf valOf adds) l m).
Proof.
  revert seen m. induction l as [|e l IH]; intros seen m H; cbn.
  - rewrite app_nil_r. exact H.
  - replace (seen ++ e :: l)%list with ((seen ++ [e]) ++ l)%list
      by (rewrite <- app_assoc; reflexivity).
    apply IH. apply groupStep_grouped. exact H.
Qed.
End Grouping.

Lemma groupByModel_grouped (l : list DocEntry) :
  grouped model capability (fun e => JS.truthy (capability e)) l
          (groupByModel l).
Proof.
  apply (groupLoop_grouped model capability
           (fun e => JS.truthy (capability e)) l [] []).
  apply grouped_nil.
Qed.

Lemma groupByVendor_filter (l : list DocEntry) (m : JS.OrderedMap) :
  fold_left
    (fun vendorModels entry =>
       if (JS.truthy (vendor entry) && String.eqb (category entry) "api")%bool
       then
         let vendorModels :=
           if negb (JS.mapHas vendorModels (vendor entry))
           then JS.mapSetNew vendorModels (vendor entry) []
           else vendorModels in
         JS.mapAddTo vendorModels (vendor entry) (model entry)
       else vendorModels)
    l m
  = fold_left (groupStep vendor model (fun _ => true))
      (filter (fun e => (JS.truthy (vendor e)
                         && String.eqb (category e) "api")%bool) l)
      m.
Proof.
  revert m. induction l as [|e l IH]; intros m; [reflexivity|].
  cbn [fold_left filter].
  destruct (JS.truthy (vendor e) && String.eqb (category e) "api")%bool;
    cbn [fold_left]; apply IH.
Qed.

Lemma groupByVendor_grouped (l : list DocEntry) :
  grouped vendor model (fun _ => true)
    (filter (fun e => (JS.truthy (vendor e)
                       && String.eqb (category e) "api")%bool) l)
    (groupByVendor l).
Proof.
  unfold groupByVendor. rewrite groupByVendor_filter.
  apply (groupLoop_grouped vendor model (fun _ => true) _ [] []).
  apply grouped_nil.
Qed.

Lemma compareStrings_total (a b : string) :
  JS.compareStrings a b <= 0 \/ JS.compareStrings b a <= 0.
Proof.
  unfold JS.compareStrings. rewrite (String.compare_antisym a b).
  destruct (String.compare b a); cbn; lia.
Qed.

Lemma sorted_distinct_ascending (l : list string) :
  Sorted (fun a b => JS.compareStrings a b <= 0) l -> NoDup l -> ascending l.
Proof.
  unfold ascending. induction 1 as [|a l Hl IH Hhd]; intros Hnd;
    [constructor|].
  inversion Hnd as [|? ? Ha Hnd']; subst.
  constructor; [apply IH; exact Hnd'|].
  destruct Hhd as [|b l Hab]; constructor.
  unfold JS.compareStrings in Hab.
  destruct (String.compare a b) eqn:Hc; [|reflexivity|lia].
  apply String.compare_eq_iff in Hc. subst b.
  exfalso. apply Ha. left. reflexivity.
Qed.

(** [Array.from(set).sort()] renders a set in strictly ascending order. *)
Lemma sort_set_ascending (s : JS.OrderedSet) :
  NoDup s ->
  ascending (JS.sort JS.compareStrings s)
  /\ NoDup (JS.sort JS.compareStrings s)
  /\ forall x, In x (JS.sort JS.compareStrings s) <-> In x s.
Proof.
  intros Hs.
  pose proof (sort_perm JS.compareStrings s) as Hp.
  assert (Hnd : NoDup (JS.sort JS.compareStrings s))
    by (apply (Permutation_NoDup (Permutation_sym Hp)); exact Hs).
  split; [|split; [exact Hnd|]].
  - apply sorted_distinct_ascending; [|exact Hnd].
    apply sort_sorted. apply compareStrings_total.
  - intros x. split; apply Permutation_in;
      [exact Hp|apply Permutation_sym; exact Hp].
Qed.

Lemma listApis_spec (env : Env) (w w' : World) (index : DocsIndex)
    (evs : list Event) (vendorArg : option string) :
  loadIndex env w = (Ret index, w', evs) ->
  listApis env vendorArg w = (Ret (listIn index vendorArg), w', evs).
Proof.
  intros H. unfold listApis. rewrite (bind_Ret _ _ _ _ _ _ H).
  cbn. rewrite app_nil_r. reflexivity.
Qed.

Lemma vendorFilter_In (index : DocsIndex) (vendor0 : string) (e : DocEntry) :
  In e (filter
          (fun e => (String.eqb (JS.toLowerCase (vendor e))
                                (JS.toLowerCase vendor0)
                     && String.eqb (category e) "api")%bool)
          (entries index))
  <-> In e (entries index) /\ matchesVendor vendor0 e.
Proof.
  rewrite filter_In, andb_true_iff, !String.eqb_eq.
  unfold matchesVendor. tauto.
Qed.

(** C7, for a vendor argument that is not the empty string. When the
    index loads, [listApis] keeps the entries of category "api" whose
    lowercased vendor equals the lowercased argument, and returns the
    argument as the only element of [vendors] and one record per distinct
    model of those entries; the capabilities of a record are the distinct
    non-empty capability values of the entries of its model, in strictly
    ascending order. With no matching entry [apis] is empty, and nothing
    is thrown. *)
Theorem listApis_for_vendor (env : Env) (w w' : World) (index : DocsIndex)
    (evs : list Event) (vendor0 : string) :
  loadIndex env w = (Ret index, w', evs) ->
  vendor0 <> "" ->
  exists result,
    listApis env (Some vendor0) w = (Ret result, w', evs)
    /\ list_vendors result = [vendor0]
    /\ NoDup (map api_model (list_apis result))
    /\ (forall m, In m (map api_model (list_apis result)) <->
                  exists e, In e (entries index) /\ matchesVendor vendor0 e
                            /\ model e = m)
    /\ (forall r, In r (list_apis result) ->
          ascending (api_capabilities r)
          /\ NoDup (api_capabilities r)
          /\ forall c, In c (api_capabilities r) <->
                       c <> ""
                       /\ exists e, In e (entries index)
                                    /\ matchesVendor vendor0 e
                                    /\ model e = api_model r
                                    /\ capability e = c)
    /\ ((forall e, In e (entries index) -> ~ matchesVendor vendor0 e) ->
        list_apis result = []).
Proof.
  intros Hload Hv. apply truthy_iff in Hv.
  exists (listIn index (Some vendor0)).
  split; [apply listApis_spec; exact Hload|].
  unfold listIn. rewrite Hv. unfold listVendor. cbn [list_vendors list_apis].
  set (vendorEntries := filter _ (entries index)).
  destruct (groupByModel_grouped vendorEntries) as (Hnd & Hkeys & Hsets).
  rewrite map_map. cbn [api_model].
  split; [reflexivity|]. split; [exact Hnd|]. split; [|split].
  - intros m. rewrite Hkeys. split; intros (e & He & Hm); exists e.
    + apply vendorFilter_In in He. tauto.
    + split; [apply vendorFilter_In; tauto|tauto].
  - intros r Hr. apply in_map_iff in Hr. destruct Hr as ([m s] & <- & Hin).
    cbn [api_capabilities api_model fst snd].
    destruct (Hsets m s Hin) as [Hs Hx].
    destruct (sort_set_ascending s Hs) as (Hasc & Hnd' & Hmem).
    split; [exact Hasc|]. split; [exact Hnd'|].
    intros c. rewrite Hmem, Hx. split.
    + intros (e & He & Hm & Ht & Hc). apply vendorFilter_In in He.
      split; [rewrite <- Hc; apply truthy_iff; exact Ht|].
      exists e. tauto.
    + intros (Hc & e & He & Hmv & Hm & Hce). exists e.
      split; [apply vendorFilter_In; tauto|].
      split; [exact Hm|]. split; [|exact Hce].
      apply truthy_iff. rewrite Hce. exact Hc.
  - intros Hnone.
    assert (Hempty : vendorEntries = []).
    { destruct vendorEntries as [|e l] eqn:Hve; [reflexivity|].
      exfalso. assert (He : In e vendorEntries) by (rewrite Hve; left; reflexivity).
      apply vendorFilter_In in He. apply (Hnone e); tauto. }
    rewrite Hempty. reflexivity.
Qed.

Lemma listApis_for_vendor_witness :
  let env := offline 1700000060000 in
  let w := sampleWorld sampleIndex 1700000000000 in
  exists result,
    listApis env (Some "openai") w = (Ret result, w, [])
    /\ list_vendors result = ["openai"]
    /\ NoDup (map api_model (list_apis result))
    /\ (forall m, In m (map api_model (list_apis result)) <->
                  exists e, In e (entries sampleIndex)
                            /\ matchesVendor "openai" e /\ model e = m)
    /\ (forall r, In r (list_apis result) ->
          ascending (api_capabilities r)
          /\ NoDup (api_capabilities r)
          /\ forall c, In c (api_capabilities r) <->
                       c <> ""
                       /\ exists e, In e (entries sampleIndex)
                                    /\ matchesVendor "openai" e
                                    /\ model e = api_model r
                                    /\ capability e = c)
    /\ ((forall e, In e (entries sampleIndex) -> ~ matchesVendor "openai" e) ->
        list_apis result = []).
Proof.
  apply (listApis_for_vendor
           (offline 1700000060000) (sampleWorld sampleIndex 1700000000000)
           (sampleWorld sampleIndex 1700000000000) sampleIndex [] "openai").
  - reflexivity.
  - discriminate.
Defined.

Example listApis_one_entry :
  listIn oneEntryIndex (Some "OpenAI")
  = {| list_vendors := ["OpenAI"];
       list_apis := [{| api_vendor := "OpenAI"; api_model := "gpt-4o";
                        api_capabilities := ["text-to-text-chat"] |}] |}.
Proof. reflexivity. Qed.

(** C7 as worded fails for the empty string, which is a given argument:
    no entry of the sample index has an empty vendor, so the sentence asks
    for no record and for [vendors] holding the empty string alone; the
    test [if (vendor)] sends the call down the other branch, and every
    vendor is listed. *)
Lemma listApis_empty_vendor_counterexample :
  let env := offline 1700000060000 in
  let w := sampleWorld sampleIndex 1700000000000 in
  (forall e, In e (entries sampleIndex) -> ~ matchesVendor "" e)
  /\ outcomeOf (listApis env (Some "") w)
     = Ret {| list_vendors := ["Claude"; "OpenAI"];
              list_apis :=
                [{| api_vendor := "OpenAI";
                    api_model := "1 models available";
                    api_capabilities := [] |};
                 {| api_vendor := "Claude";
                    api_model := "1 models available";
                    api_capabilities := [] |}] |}
  /\ outcomeOf (listApis env (Some "") w)
     <> Ret {| list_vendors := [""]; list_apis := [] |}.
Proof.
  split; [|split; [reflexivity|discriminate]].
  intros e He [Hc Hv]. cbn in He.
  destruct He as [<-|[<-|[<-|[<-|[]]]]]; vm_compute in Hc, Hv; discriminate.
Qed.

(** C8, for the entries that have a vendor. When the index loads and the
    vendor argument is left out, [listApis] returns the vendor list of
    the index as it stands, and one record per distinct non-empty vendor
    of the entries of category "api"; the record carries no capability,
    and its model field reads "<n> models available", [n] being the
    number of distinct models of the "api" entries of that vendor. *)
Theorem listApis_all_vendors (env : Env) (w w' : World) (index : DocsIndex)
    (evs : list Event) :
  loadIndex env w = (Ret index, w', evs) ->
  exists result,
    listApis env None w = (Ret result, w', evs)
    /\ list_vendors result = vendors index
    /\ NoDup (map api_vendor (list_apis result))
    /\ (forall v, In v (map api_vendor (list_apis result)) <->
                  v <> ""
                  /\ exists e, In e (entries index) /\ category e = "api"
                               /\ vendor e = v)
    /\ (forall r, In r (list_apis result) ->
          api_capabilities r = []
          /\ exists models,
               NoDup models
               /\ (forall m, In m models <->
                             exists e, In e (entries index)
                                       /\ category e = "api"
                                       /\ vendor e = api_vendor r
                                       /\ model e = m)
               /\ api_model r
                  = JS.numberToString (length models) ++ " models available").
Proof.
  intros Hload. exists (listIn index None).
  split; [apply listApis_spec; exact Hload|].
  unfold listIn, listAllVendors. cbn [list_vendors list_apis].
  destruct (groupByVendor_grouped (entries index)) as (Hnd & Hkeys & Hsets).
  assert (Hguard : forall e,
    In e (filter (fun e => (JS.truthy (vendor e)
                            && String.eqb (category e) "api")%bool)
                 (entries index))
    <-> In e (entries index) /\ vendor e <> "" /\ category e = "api").
  { intros e. rewrite filter_In, andb_true_iff, truthy_iff, String.eqb_eq.
    tauto. }
  rewrite map_map. cbn [api_vendor].
  split; [reflexivity|]. split; [exact Hnd|]. split.
  - intros v. rewrite Hkeys. split.
    + intros (e & He & Hv). apply Hguard in He. subst v.
      split; [tauto|]. exists e. tauto.
    + intros (Hv & e & He & Hc & Hev). exists e. split; [|exact Hev].
      apply Hguard. subst v. tauto.
  - intros r Hr. apply in_map_iff in Hr. destruct Hr as ([v s] & <- & Hin).
    cbn [api_capabilities api_model api_vendor fst snd].
    split; [reflexivity|]. exists s.
    destruct (Hsets v s Hin) as [Hs Hx].
    assert (Hv : v <> "").
    { assert (Hk : In v (map fst (groupByVendor (entries index))))
        by (apply in_map_iff; exists (v, s); auto).
      apply Hkeys in Hk. destruct Hk as (e & He & <-).
      apply Hguard in He. tauto. }
    split; [exact Hs|]. split; [|reflexivity].
    intros m. rewrite Hx. split.
    + intros (e & He & Hev & _ & Hm). apply Hguard in He. exists e. tauto.
    + intros (e & He & Hc & Hev & Hm). exists e.
      split; [apply Hguard; rewrite Hev; tauto|auto].
Qed.

Lemma listApis_all_vendors_witness :
  let env := offline 1700000060000 in
  let w := sampleWorld sampleIndex 1700000000000 in
  exists result,
    listApis env None w = (Ret result, w, [])
    /\ list_vendors result = vendors sampleIndex
    /\ NoDup (map api_vendor (list_apis result))
    /\ (forall v, In v (map api_vendor (list_apis result)) <->
                  v <> ""
                  /\ exists e, In e (entries sampleIndex) /\ category e = "api"
                               /\ vendor e = v)
    /\ (forall r, In r (list_apis result) ->
          api_capabilities r = []
          /\ exists models,
               NoDup models
               /\ (forall m, In m models <->
                             exists e, In e (entries sampleIndex)
                                       /\ category e = "api"
                                       /\ vendor e = api_vendor r
                                       /\ model e = m)
               /\ api_model r
                  = JS.numberToString (length models) ++ " models available").
Proof.
  apply (listApis_all_vendors
           (offline 1700000060000) (sampleWorld sampleIndex 1700000000000)
           (sampleWorld sampleIndex 1700000000000) sampleIndex []).
  reflexivity.
Defined.

(** C8 as worded fails for an entry of category "api" without a vendor:
    the loop skips it, so not all "api" entries are grouped and its empty
    vendor gets no summary record. *)
Lemma listApis_entry_without_vendor_counterexample :
  In allApiPage (entries overviewIndex)
  /\ category allApiPage = "api"
  /\ listIn overviewIndex None
     = {| list_vendors := ["OpenAI"];
          list_apis := [{| api_vendor := "OpenAI";
                           api_model := "1 models available";
                           api_capabilities := [] |}] |}
  /\ ~ In (vendor allApiPage)
          (map api_vendor (list_apis (listIn overviewIndex None))).
Proof.
  split; [left; reflexivity|]. split; [reflexivity|]. split; [reflexivity|].
  cbn. intros [H|[]]. discriminate.
Qed.

(** ** The index store: further properties *)

Lemma loadCachedIndex_events (w : World) :
  Forall looksOnly (eventsOf (loadCachedIndex w)).
Proof.
  destruct w as [c t d [| |[|j]] [| |[|j']]]; cbn; repeat constructor.
Qed.

Lemma fetchRemoteIndex_events (env : Env) (w : World) :
  Forall refreshEvent (eventsOf (fetchRemoteIndex env w)).
Proof.
  unfold eventsOf. run.
  destruct (fetchResult env) as [|[] [|j]]; cbn; repeat constructor.
  destruct w as [c t [|] cf bf]; cbn.
  - destruct (writeOk env); cbn; repeat constructor.
  - destruct (mkdirOk env), (writeOk env); cbn; repeat constructor.
Qed.

Lemma fetchRemoteIndex_disk (env : Env) (w : World) :
  cacheFile (worldOf (fetchRemoteIndex env w))
  = (if persisted env w
     then match fetchResult env with
          | Status true (JsonText j) => Readable (JsonText j)
          | _ => cacheFile w
          end
     else cacheFile w)
  /\ (cacheDir w = true -> cacheDir (worldOf (fetchRemoteIndex env w)) = true).
Proof.
  destruct env as [now [|[] [|j]] [|] [|]], w as [c t [|] cf bf]; cbn;
    split; auto; discriminate.
Qed.

(** X1. [fetchRemoteIndex] never throws, whatever the network, the
    response and the disk do: it returns the index of an ok response with
    a JSON body and [null] in every other case. It never touches the
    memory cache or the bundled file, and a failed fetch leaves the whole
    world as it was. *)
Theorem fetchRemoteIndex_never_throws (env : Env) (w : World) :
  outcomeOf (fetchRemoteIndex env w) = Ret (remoteValue env)
  /\ cachedIndex (worldOf (fetchRemoteIndex env w)) = cachedIndex w
  /\ lastFetchTime (worldOf (fetchRemoteIndex env w)) = lastFetchTime w
  /\ bundledFile (worldOf (fetchRemoteIndex env w)) = bundledFile w
  /\ (fetchFails env -> worldOf (fetchRemoteIndex env w) = w).
Proof.
  destruct (fetchRemoteIndex_spec env w) as (w' & evs & Hf & Hc & Ht & Hb & _).
  rewrite Hf. cbn. repeat split; auto.
  intros Hfail. rewrite (fetchRemoteIndex_failed env w Hfail) in Hf.
  congruence.
Qed.

(** X2. [loadIndexSync] stays local: it sends no request and writes
    nothing (its events only look at the disk, and the files, the cache
    directory and [lastFetchTime] are as before). It returns a cached
    index whatever its age, without any I/O, and throws "not loaded"
    exactly when nothing is cached and [loadCachedIndex] finds nothing. *)
Theorem loadIndexSync_stays_local (w : World) :
  Forall looksOnly (eventsOf (loadIndexSync w))
  /\ cacheDir (worldOf (loadIndexSync w)) = cacheDir w
  /\ cacheFile (worldOf (loadIndexSync w)) = cacheFile w
  /\ bundledFile (worldOf (loadIndexSync w)) = bundledFile w
  /\ lastFetchTime (worldOf (loadIndexSync w)) = lastFetchTime w
  /\ (forall cached, cachedIndex w = JDoc cached ->
        loadIndexSync w = (Ret cached, w, []))
  /\ (outcomeOf (loadIndexSync w) = Throw IndexNotLoaded
       <-> cachedIndex w = JNull /\ diskValue w = JNull).
Proof.
  assert (Hev : Forall looksOnly (eventsOf (loadIndexSync w))).
  { unfold loadIndexSync. rewrite bind_getWorld.
    destruct (cachedIndex w); [|constructor].
    pose proof (loadCachedIndex_events w) as Hev.
    destruct (loadCachedIndex_spec w) as (evs & Hd). rewrite Hd in Hev.
    rewrite (bind_Ret _ _ _ _ _ _ Hd).
    destruct (diskValue w); cbn in *; rewrite ?app_nil_r; exact Hev. }
  split; [exact Hev|].
  destruct (loadIndexSync_spec w) as (evs & ->).
  destruct (cachedIndex w) as [|cached] eqn:Hc;
    [destruct (diskValue w) as [|index] eqn:Hd|]; cbn;
    repeat split; try congruence; try discriminate; try tauto;
    try (intros [H1 H2]; discriminate).
Qed.

(** X3. Whatever [loadIndex] returns is in the memory cache afterwards,
    so that a call made less than an hour after the time then stamped
    returns the same index without any I/O. *)
Theorem loadIndex_caches_what_it_returns (env : Env) (w : World)
    (index : DocsIndex) :
  outcomeOf (loadIndex env w) = Ret index ->
  cachedIndex (worldOf (loadIndex env w)) = JDoc index
  /\ forall env',
       dateNow env' - lastFetchTime (worldOf (loadIndex env w)) < CACHE_TTL ->
       loadIndex env' (worldOf (loadIndex env w))
       = (Ret index, worldOf (loadIndex env w), []).
Proof.
  intros Hret.
  assert (Hc : cachedIndex (worldOf (loadIndex env w)) = JDoc index).
  { destruct (fresh_or_stale env w) as [(cached & Hc & Ht)|Hs].
    - rewrite (loadIndex_fresh env w cached Hc Ht) in *. cbn in *. congruence.
    - destruct (loadIndex_stale env w Hs) as (w1 & evs1 & evs2 & _ & _ & Hl).
      rewrite Hl in *.
      destruct (remoteValue env); [destruct (diskValue w1)|]; cbn in *;
        congruence. }
  split; [exact Hc|]. intros env' Ht. apply loadIndex_fresh; assumption.
Qed.

Lemma loadIndex_caches_what_it_returns_witness :
  let env := offline 1700000000000 in
  let w := initialWorld true Missing (Readable (JsonText (JDoc sampleIndex))) in
  cachedIndex (worldOf (loadIndex env w)) = JDoc sampleIndex
  /\ forall env',
       dateNow env' - lastFetchTime (worldOf (loadIndex env w)) < CACHE_TTL ->
       loadIndex env' (worldOf (loadIndex env w))
       = (Ret sampleIndex, worldOf (loadIndex env w), []).
Proof.
  apply (loadIndex_caches_what_it_returns
           (offline 1700000000000)
           (initialWorld true Missing (Readable (JsonText (JDoc sampleIndex))))
           sampleIndex).
  reflexivity.
Defined.

Lemma loadIndex_world (env : Env) (w : World) :
  worldOf (loadIndex env w) = w
  \/ (exists j, worldOf (loadIndex env w)
                = withMemory (worldOf (fetchRemoteIndex env w)) j (dateNow env))
  \/ worldOf (loadIndex env w) = worldOf (fetchRemoteIndex env w).
Proof.
  destruct (fresh_or_stale env w) as [(cached & Hc & Ht)|Hs].
  - left. rewrite (loadIndex_fresh env w cached Hc Ht). reflexivity.
  - destruct (loadIndex_stale env w Hs) as (w1 & evs1 & evs2 & Hf & _ & Hl).
    rewrite Hl, Hf. cbn.
    destruct (remoteValue env); [destruct (diskValue w1)|]; cbn; eauto.
Qed.

(** X4. [loadIndex] never changes the bundled file and never empties the
    memory cache. The per-user cache file changes only when the request
    was answered ok with a JSON body and the write went through, and
    then holds that body; a cache directory that exists stays. *)
Theorem loadIndex_spares_the_disk (env : Env) (w : World) :
  bundledFile (worldOf (loadIndex env w)) = bundledFile w
  /\ (cachedIndex w <> JNull -> cachedIndex (worldOf (loadIndex env w)) <> JNull)
  /\ (cacheFile (worldOf (loadIndex env w)) = cacheFile w
       \/ exists j, fetchResult env = Status true (JsonText j)
                    /\ persisted env w = true
                    /\ cacheFile (worldOf (loadIndex env w))
                       = Readable (JsonText j))
  /\ (cacheDir w = true -> cacheDir (worldOf (loadIndex env w)) = true).
Proof.
  destruct (fetchRemoteIndex_spec env w) as (w1 & evs & Hf & Hc & _ & Hb & _).
  destruct (fetchRemoteIndex_disk env w) as [Hfile Hdir].
  rewrite Hf in Hfile, Hdir. cbn in Hfile, Hdir.
  assert (Hfile' : cacheFile w1 = cacheFile w
                   \/ exists j, fetchResult env = Status true (JsonText j)
                                /\ persisted env w = true
                                /\ cacheFile w1 = Readable (JsonText j)).
  { rewrite Hfile. destruct (persisted env w); [|auto].
    destruct (fetchResult env) as [|[] [|j]]; eauto. }
  assert (Hmem : cachedIndex w <> JNull ->
                 cachedIndex (worldOf (loadIndex env w)) <> JNull).
  { destruct (loadIndex_memory env w) as [[Hm _]|(index & _ & Hm & _)];
      rewrite Hm; [auto|discriminate]. }
  destruct (loadIndex_world env w) as [HW|[(j & HW)|HW]];
    rewrite ?Hf in HW; cbn [worldOf fst snd] in HW.
  - rewrite HW in *. repeat split; auto.
  - split; [rewrite HW; exact Hb|]. split; [exact Hmem|].
    rewrite HW. cbn. auto.
  - split; [rewrite HW; exact Hb|]. split; [exact Hmem|].
    rewrite HW. auto.
Qed.

(** X5. A stale index in memory is not a last resort: when the cached
    index is an hour old or more, the request fails and the disk yields
    nothing, [loadIndex] throws "index not available" and leaves the
    world as it was, although the stale index is still cached and
    [loadIndexSync] goes on returning it. *)
Theorem stale_index_is_not_served (env : Env) (w : World) (cached : DocsIndex) :
  cachedIndex w = JDoc cached ->
  CACHE_TTL <= dateNow env - lastFetchTime w ->
  fetchFails env ->
  diskValue w = JNull ->
  loadIndex env w
  = (Throw IndexNotAvailable, w, EvFetch :: EvLog :: eventsOf (loadCachedIndex w))
  /\ loadIndexSync w = (Ret cached, w, []).
Proof.
  intros Hc Ht Hfail Hd. split.
  - assert (Hs : stale env w) by (right; exact Ht).
    destruct (loadIndex_stale env w Hs) as (w1 & evs1 & evs2 & Hf & Hl & Hrun).
    rewrite (fetchRemoteIndex_failed env w Hfail) in Hf.
    injection Hf as Hr <- <-. rewrite <- Hr, Hd in Hrun.
    rewrite Hrun, Hl. reflexivity.
  - unfold loadIndexSync. rewrite bind_getWorld, Hc. reflexivity.
Qed.

Lemma stale_index_is_not_served_witness :
  let env := offline 1700003600000 in
  let w := {| cachedIndex := JDoc sampleIndex; lastFetchTime := 1700000000000;
              cacheDir := false; cacheFile := Missing;
              bundledFile := Missing |} in
  loadIndex env w
  = (Throw IndexNotAvailable, w, EvFetch :: EvLog :: eventsOf (loadCachedIndex w))
  /\ loadIndexSync w = (Ret sampleIndex, w, []).
Proof.
  apply (stale_index_is_not_served
           (offline 1700003600000)
           {| cachedIndex := JDoc sampleIndex; lastFetchTime := 1700000000000;
              cacheDir := false; cacheFile := Missing;
              bundledFile := Missing |}
           sampleIndex).
  - reflexivity.
  - vm_compute. discriminate.
  - exact I.
  - reflexivity.
Defined.

(** X6. The remote index comes first: when the memory cache cannot serve
    and the request yields an index, [loadIndex] returns that index and
    stamps it, and never looks at the cache file or at the bundled file,
    whatever they hold; all it does besides the request is the care of
    the cache directory and the write of the cache file. *)
Theorem remote_index_skips_the_disk (env : Env) (w : World) (index : DocsIndex) :
  stale env w ->
  remoteValue env = JDoc index ->
  outcomeOf (loadIndex env w) = Ret index
  /\ cachedIndex (worldOf (loadIndex env w)) = JDoc index
  /\ lastFetchTime (worldOf (loadIndex env w)) = dateNow env
  /\ Forall refreshEvent (eventsOf (loadIndex env w))
  /\ (forall p, ~ In (EvRead p) (eventsOf (loadIndex env w)))
  /\ ~ In (EvExists CACHE_INDEX_PATH) (eventsOf (loadIndex env w))
  /\ ~ In (EvExists LOCAL_INDEX_PATH) (eventsOf (loadIndex env w)).
Proof.
  intros Hs Hr.
  destruct (loadIndex_stale env w Hs) as (w1 & evs1 & evs2 & Hf & _ & Hrun).
  pose proof (fetchRemoteIndex_events env w) as Hev.
  rewrite Hf in Hev. rewrite Hr in Hrun. rewrite Hrun. cbn in *.
  assert (Hno : forall e, In e (EvFetch :: evs1) -> refreshEvent e)
    by (apply Forall_forall; exact Hev).
  repeat split; auto.
  - intros p Hin. apply (Hno _ Hin).
  - intros Hin. apply (Hno _ Hin).
  - intros Hin. apply (Hno _ Hin).
Qed.

Lemma remote_index_skips_the_disk_witness :
  let env := online 1700000000000 (JsonText (JDoc sampleIndex)) in
  let w := initialWorld true (Readable (JsonText JNull))
                        (Readable (JsonText (JDoc oneEntryIndex))) in
  outcomeOf (loadIndex env w) = Ret sampleIndex
  /\ cachedIndex (worldOf (loadIndex env w)) = JDoc sampleIndex
  /\ lastFetchTime (worldOf (loadIndex env w)) = dateNow env
  /\ Forall refreshEvent (eventsOf (loadIndex env w))
  /\ (forall p, ~ In (EvRead p) (eventsOf (loadIndex env w)))
  /\ ~ In (EvExists CACHE_INDEX_PATH) (eventsOf (loadIndex env w))
  /\ ~ In (EvExists LOCAL_INDEX_PATH) (eventsOf (loadIndex env w)).
Proof.
  apply (remote_index_skips_the_disk
           (online 1700000000000 (JsonText (JDoc sampleIndex)))
           (initialWorld true (Readable (JsonText JNull))
                         (Readable (JsonText (JDoc oneEntryIndex))))
           sampleIndex).
  - left. reflexivity.
  - reflexivity.
Defined.

(** ** The search: further properties *)

Lemma scoreOf_sum (query : string) (entry : DocEntry) :
  scoreOf query entry = sumZ (map (termPoints entry) (queryTermsOf query)).
Proof. unfold scoreOf, scoreEntry. cbn [snd]. rewrite scoreLoop_sum. lia. Qed.

Lemma sumZ_app (l1 l2 : list Z) : sumZ (l1 ++ l2) = sumZ l1 + sumZ l2.
Proof.
  unfold sumZ. induction l1 as [|x l1 IH]; cbn [app fold_right]; lia.
Qed.

Lemma sumZ_bounds (f : string -> Z) (lo hi : Z) (l : list string) :
  (forall t, In t l -> lo <= f t <= hi) ->
  lo * Z.of_nat (length l) <= sumZ (map f l) <= hi * Z.of_nat (length l).
Proof.
  unfold sumZ. induction l as [|t l IH]; intros H; [cbn; lia|].
  cbn [map fold_right length].
  assert (Ht : lo <= f t <= hi) by (apply H; left; reflexivity).
  assert (Hl : forall t, In t l -> lo <= f t <= hi)
    by (intros t' Ht'; apply H; right; exact Ht').
  specialize (IH Hl). lia.
Qed.

Lemma sumZ_nonneg (f : string -> Z) (l : list string) :
  (forall t, In t l -> 0 <= f t) -> 0 <= sumZ (map f l).
Proof.
  intros H. unfold sumZ.
  induction l as [|x l IH]; cbn [map fold_right]; [lia|].
  assert (Hx : 0 <= f x) by (apply H; left; reflexivity).
  assert (Hl : 0 <= fold_right Z.add 0 (map f l))
    by (apply IH; intros t Ht; apply H; right; exact Ht).
  lia.
Qed.

Lemma sumZ_member (f : string -> Z) (l : list string) (t : string) :
  (forall t, In t l -> 0 <= f t) -> In t l -> f t <= sumZ (map f l).
Proof.
  induction l as [|x l IH]; intros H Hin; [destruct Hin|].
  assert (Hx : 0 <= f x) by (apply H; left; reflexivity).
  assert (Hl : forall t, In t l -> 0 <= f t)
    by (intros t' Ht'; apply H; right; exact Ht').
  pose proof (sumZ_nonneg f l Hl) as Hnn.
  unfold sumZ in *. cbn [map fold_right].
  destruct Hin as [->|Hin]; [lia|]. specialize (IH Hl Hin). lia.
Qed.

Lemma splitFrom_run (s : string) :
  filter JS.truthy (JS.splitFrom "" true s)
  = filter JS.truthy (JS.splitFrom "" false s).
Proof. destruct s as [|c s]; cbn; [reflexivity|]. destruct (JS.isSpace c); reflexivity. Qed.

Lemma splitFrom_app_space (a b cur : string) (inRun : bool) (c : ascii) :
  JS.isSpace c = true ->
  (inRun = true -> cur = "") ->
  filter JS.truthy (JS.splitFrom cur inRun (a ++ String c b))
  = (filter JS.truthy (JS.splitFrom cur inRun a)
     ++ filter JS.truthy (JS.splitFrom "" true b))%list.
Proof.
  intros Hc. revert cur inRun.
  induction a as [|x a IH]; intros cur inRun Hcur; cbn.
  - rewrite Hc. destruct inRun.
    + rewrite (Hcur eq_refl). reflexivity.
    + cbn. destruct (JS.truthy cur); reflexivity.
  - destruct (JS.isSpace x).
    + destruct inRun.
      * apply IH. reflexivity.
      * cbn. rewrite IH by reflexivity. destruct (JS.truthy cur); reflexivity.
    + apply IH. discriminate.
Qed.

(** The terms of two queries joined by a space are the terms of the one
    followed by the terms of the other. *)
Lemma queryTerms_joined (q1 q2 : string) :
  queryTermsOf (q1 ++ " " ++ q2) = (queryTermsOf q1 ++ queryTermsOf q2)%list.
Proof.
  unfold queryTermsOf, JS.splitSpaces.
  rewrite !toLowerCase_app.
  change (JS.toLowerCase " " ++ JS.toLowerCase q2)
    with (String " "%char (JS.toLowerCase q2)).
  rewrite splitFrom_app_space by (reflexivity || discriminate).
  rewrite splitFrom_run. reflexivity.
Qed.

(** X7. The score is additive over queries joined by a space: the score
    for "q1 q2" is the score for q1 plus the score for q2. So the order
    of the words does not matter for the score, and adding words to a
    query never lowers the score of an entry. *)
Theorem score_additive (q1 q2 : string) (entry : DocEntry) :
  scoreOf (q1 ++ " " ++ q2) entry = scoreOf q1 entry + scoreOf q2 entry
  /\ scoreOf (q2 ++ " " ++ q1) entry = scoreOf (q1 ++ " " ++ q2) entry
  /\ scoreOf q1 entry <= scoreOf (q1 ++ " " ++ q2) entry.
Proof.
  assert (Hadd : forall a b,
            scoreOf (a ++ " " ++ b) entry = scoreOf a entry + scoreOf b entry).
  { intros a b. rewrite !scoreOf_sum, queryTerms_joined, map_app, sumZ_app.
    reflexivity. }
  assert (Hpos : 0 <= scoreOf q2 entry).
  { rewrite scoreOf_sum.
    pose proof (sumZ_bounds (termPoints entry) 0 30 (queryTermsOf q2)) as H.
    assert (Hb : forall t, In t (queryTermsOf q2) ->
                           0 <= termPoints entry t <= 30).
    { intros t _. unfold termPoints, bonus.
      repeat match goal with |- context [if ?b then _ else _] => destruct b end;
        lia. }
    specialize (H Hb). lia. }
  rewrite !Hadd. lia.
Qed.

Lemma termPoints_positive (query term : string) (entry : DocEntry) :
  In term (queryTermsOf query) ->
  (0 < termPoints entry term <-> occursIn entry term).
Proof.
  intros Hin. pose proof (anywhere_is_some_field query term entry Hin) as Ha.
  unfold termPoints, bonus, occursIn. rewrite Ha.
  destruct (JS.includes (JS.toLowerCase (title entry)) term),
           (JS.includes (JS.toLowerCase (description entry)) term),
           (JS.includes (JS.toLowerCase (path entry)) term),
           (JS.includes (JS.toLowerCase (vendor entry)) term),
           (JS.includes (JS.toLowerCase (model entry)) term),
           (JS.includes (JS.toLowerCase (capability entry)) term);
    cbn; split; intros H; try lia; try tauto;
    repeat (destruct H as [H|H]; try discriminate).
Qed.

(** X8. An entry scores above zero, and so can be returned by the
    search, exactly when some term of the query occurs in one of its six
    lowercased fields title, description, path, vendor, model and
    capability. The content, the format and the category of an entry are
    never searched. *)
Theorem positive_score_iff_term_occurs (query : string) (entry : DocEntry) :
  0 < scoreOf query entry
  <-> exists term, In term (queryTermsOf query) /\ occursIn entry term.
Proof.
  rewrite scoreOf_sum.
  assert (Hnn : forall t, In t (queryTermsOf query) -> 0 <= termPoints entry t)
    by (intros; apply termPoints_nonneg).
  split.
  - intros Hpos.
    assert (Hex : exists t, In t (queryTermsOf query) /\ 0 < termPoints entry t).
    { clear Hnn. revert Hpos. unfold sumZ.
      induction (queryTermsOf query) as [|t l IH]; cbn [map fold_right];
        [lia|].
      intros Hpos.
      destruct (Z_lt_ge_dec 0 (termPoints entry t)) as [Ht|Ht].
      - exists t. split; [left; reflexivity|exact Ht].
      - destruct IH as (t' & Hin & Ht').
        + pose proof (termPoints_nonneg entry t). lia.
        + exists t'. split; [right; exact Hin|exact Ht']. }
    destruct Hex as (t & Hin & Ht). exists t. split; [exact Hin|].
    apply (termPoints_positive query t entry Hin). exact Ht.
  - intros (t & Hin & Hocc).
    apply (termPoints_positive query t entry Hin) in Hocc.
    pose proof (sumZ_member (termPoints entry) _ t Hnn Hin). lia.
Qed.

Lemma lowerUnit_space (c : ascii) :
  JS.isSpace c = true -> JS.isSpace (JS.lowerUnit c) = true.
Proof.
  destruct c as [[] [] [] [] [] [] [] []]; vm_compute; auto.
Qed.

Lemma blank_lower (s : string) : blank s -> blank (JS.toLowerCase s).
Proof.
  induction s as [|c s IH]; cbn; [auto|]. intros [Hc Hs].
  split; [apply lowerUnit_space; exact Hc|apply IH; exact Hs].
Qed.

Lemma blank_split (s : string) (inRun : bool) :
  blank s -> filter JS.truthy (JS.splitFrom "" inRun s) = [].
Proof.
  revert inRun. induction s as [|c s IH]; intros inRun; cbn; [reflexivity|].
  intros [Hc Hs]. rewrite Hc. destruct inRun; cbn; apply IH; exact Hs.
Qed.

(** X9. A query of white space only (the empty query included) has no
    term: every entry scores 0 and the search returns the empty list, for
    every index and every limit. *)
Theorem blank_query_finds_nothing (query : string) :
  blank query ->
  queryTermsOf query = []
  /\ (forall entry, scoreOf query entry = 0)
  /\ (forall index limit, searchIn index query limit = []).
Proof.
  intros Hb.
  assert (Ht : queryTermsOf query = []).
  { unfold queryTermsOf, JS.splitSpaces. apply blank_split, blank_lower, Hb. }
  split; [exact Ht|].
  assert (Hs : forall entry, scoreOf query entry = 0)
    by (intros entry; rewrite scoreOf_sum, Ht; reflexivity).
  split; [exact Hs|].
  intros index limit. rewrite searchIn_ranked. unfold ranked.
  assert (Hf : filter (positive query) (entries index) = []).
  { induction (entries index) as [|e l IH]; [reflexivity|]. cbn [filter].
    unfold positive at 1. rewrite Hs. cbn. exact IH. }
  rewrite Hf. unfold JS.slice0. cbn [JS.sort fold_right].
  destruct (limit <? 0); apply firstn_nil.
Qed.

Lemma blank_query_finds_nothing_witness :
  queryTermsOf "  " = []
  /\ (forall entry, scoreOf "  " entry = 0)
  /\ (forall index limit, searchIn index "  " limit = []).
Proof.
  apply (blank_query_finds_nothing "  "). cbn. auto.
Defined.

(** X10. The score of an entry lies between 0 and 30 points per term of
    the query, and an entry whose lowercased model includes a term of
    the query scores at least 11: the ten points of the model and the
    point of the match anywhere, which every match in a field brings. *)
Theorem score_bounds (query : string) (entry : DocEntry) :
  0 <= scoreOf query entry <= 30 * Z.of_nat (length (queryTermsOf query))
  /\ forall term,
       In term (queryTermsOf query) ->
       JS.includes (JS.toLowerCase (model entry)) term = true ->
       11 <= scoreOf query entry.
Proof.
  rewrite scoreOf_sum. split.
  - pose proof (sumZ_bounds (termPoints entry) 0 30 (queryTermsOf query)) as H.
    assert (Hb : forall t, In t (queryTermsOf query) ->
                           0 <= termPoints entry t <= 30).
    { intros t _. unfold termPoints, bonus.
      repeat match goal with |- context [if ?b then _ else _] => destruct b end;
        lia. }
    specialize (H Hb). lia.
  - intros term Hin Hm.
    assert (Hnn : forall t, In t (queryTermsOf query) -> 0 <= termPoints entry t)
      by (intros; apply termPoints_nonneg).
    pose proof (sumZ_member (termPoints entry) _ term Hnn Hin) as Hle.
    assert (H11 : 11 <= termPoints entry term).
    { pose proof (anywhere_is_some_field query term entry Hin) as Ha.
      unfold termPoints, bonus. rewrite Ha, Hm.
      rewrite !orb_true_r. cbn [orb].
      repeat match goal with |- context [if ?b then _ else _] => destruct b end;
        lia. }
    lia.
Qed.

Lemma slice0_In {A} (l : list A) (n : Z) (x : A) :
  In x (JS.slice0 l n) -> In x l.
Proof.
  unfold JS.slice0. destruct (n <? 0); intros H;
    match type of H with In _ (firstn ?k _) =>
      rewrite <- (firstn_skipn k l); apply in_or_app; left; exact H
    end.
Qed.

Lemma searchIn_entries (index : DocsIndex) (query : string) (limit : Z)
    (e : DocEntry) :
  In e (searchIn index query limit) ->
  In e (entries index) /\ 0 < scoreOf query e.
Proof.
  rewrite searchIn_ranked. intros H. apply slice0_In in H.
  apply (Permutation_in _ (ranked_perm index query)) in H.
  apply filter_In in H. destruct H as [Hin Hp]. split; [exact Hin|].
  unfold positive in Hp. rewrite Z.gtb_ltb in Hp. apply Z.ltb_lt. exact Hp.
Qed.

(** X11. Search and look-up fit together: every entry that [searchDocs]
    returns for an index can be fetched from that index by
    [getDocContent] with its path, which returns an entry of that very
    path; it never answers "not found" for a search result. *)
Theorem search_results_can_be_fetched (env : Env) (w w' : World)
    (index : DocsIndex) (evs : list Event) (query : string) (limit : Z)
    (e : DocEntry) :
  loadIndex env w = (Ret index, w', evs) ->
  In e (searchIn index query limit) ->
  exists entry,
    getDocContent env (path e) w = (Ret (content entry, entry), w', evs)
    /\ path entry = path e
    /\ In entry (entries index).
Proof.
  intros Hload Hin. apply searchIn_entries in Hin. destruct Hin as [Hin _].
  unfold getDocContent. rewrite (bind_Ret _ _ _ _ _ _ Hload).
  destruct (find (fun e' => String.eqb (path e') (path e)) (entries index))
    as [entry|] eqn:Hfind.
  - exists entry. pose proof (find_some _ _ Hfind) as [He Hp].
    apply String.eqb_eq in Hp. cbn. rewrite app_nil_r. auto.
  - exfalso. apply (proj1 (find_path_none (path e) _) Hfind e Hin).
    reflexivity.
Qed.

Lemma search_results_can_be_fetched_witness :
  let env := offline 1700000060000 in
  let w := sampleWorld sampleIndex 1700000000000 in
  exists entry,
    getDocContent env (path claude) w = (Ret (content entry, entry), w, [])
    /\ path entry = path claude
    /\ In entry (entries sampleIndex).
Proof.
  apply (search_results_can_be_fetched
           (offline 1700000060000) (sampleWorld sampleIndex 1700000000000)
           (sampleWorld sampleIndex 1700000000000) sampleIndex []
           "claude" 20 claude).
  - reflexivity.
  - vm_compute. left. reflexivity.
Defined.

(** ** Listing: further properties *)

Lemma toLowerCase_empty (s : string) : JS.toLowerCase s = "" -> s = "".
Proof. destruct s; cbn; [reflexivity|discriminate]. Qed.

(** X12. The spelling of the requested vendor does not matter for the
    records: two non-empty vendor arguments that agree once lowercased
    give the same [apis]. The vendor field of every record is the vendor
    of the first matching entry, as the index spells it, not the
    argument. *)
Theorem listApis_vendor_spelling (index : DocsIndex) (v1 v2 : string) :
  v1 <> "" -> v2 <> "" ->
  JS.toLowerCase v1 = JS.toLowerCase v2 ->
  list_apis (listIn index (Some v1)) = list_apis (listIn index (Some v2))
  /\ forall r, In r (list_apis (listIn index (Some v1))) ->
       exists first rest,
         filter (fun e => (String.eqb (JS.toLowerCase (vendor e))
                                      (JS.toLowerCase v1)
                           && String.eqb (category e) "api")%bool)
                (entries index)
         = first :: rest
         /\ api_vendor r = vendor first.
Proof.
  intros H1 H2 Hlow.
  assert (Hwith : forall v, v <> "" -> JS.toLowerCase v = JS.toLowerCase v1 ->
    list_apis (listIn index (Some v))
    = match filter (fun e => (String.eqb (JS.toLowerCase (vendor e))
                                         (JS.toLowerCase v1)
                              && String.eqb (category e) "api")%bool)
                   (entries index) with
      | [] => []
      | first :: rest =>
          map (fun mc =>
                 {| api_vendor := vendor first;
                    api_model := fst mc;
                    api_capabilities := JS.sort JS.compareStrings (snd mc) |})
              (groupByModel (first :: rest))
      end).
  { intros v Hv Hvl. apply truthy_iff in Hv.
    unfold listIn. rewrite Hv. unfold listVendor. cbn [list_apis].
    rewrite Hvl.
    destruct (filter _ (entries index)) as [|first rest] eqn:Hf;
      [reflexivity|].
    assert (Hin : In first (first :: rest)) by (left; reflexivity).
    rewrite <- Hf in Hin. apply filter_In in Hin. destruct Hin as [_ Hm].
    apply andb_true_iff in Hm. destruct Hm as [Hm _].
    apply String.eqb_eq in Hm.
    assert (Ht : JS.truthy (vendor first) = true).
    { apply truthy_iff. intros Hv0. rewrite Hv0 in Hm. cbn in Hm.
      symmetry in Hm. apply toLowerCase_empty in Hm. contradiction. }
    unfold vendorLabel. rewrite Ht. reflexivity. }
  rewrite (Hwith v1 H1 eq_refl), (Hwith v2 H2 (eq_sym Hlow)).
  split; [reflexivity|].
  intros r Hr.
  destruct (filter _ (entries index)) as [|first rest]; [destruct Hr|].
  exists first, rest. split; [reflexivity|].
  apply in_map_iff in Hr. destruct Hr as (mc & <- & _). reflexivity.
Qed.

Lemma listApis_vendor_spelling_witness :
  list_apis (listIn sampleIndex (Some "OPENAI"))
  = list_apis (listIn sampleIndex (Some "openai"))
  /\ forall r, In r (list_apis (listIn sampleIndex (Some "OPENAI"))) ->
       exists first rest,
         filter (fun e => (String.eqb (JS.toLowerCase (vendor e))
                                      (JS.toLowerCase "OPENAI")
                           && String.eqb (category e) "api")%bool)
                (entries sampleIndex)
         = first :: rest
         /\ api_vendor r = vendor first.
Proof.
  apply (listApis_vendor_spelling sampleIndex "OPENAI" "openai").
  - discriminate.
  - discriminate.
  - reflexivity.
Defined.

(** ** The request handler *)

Lemma loadIndex_result (env : Env) (w : World) :
  (exists index w' evs, loadIndex env w = (Ret index, w', evs))
  \/ (exists w' evs, loadIndex env w = (Throw IndexNotAvailable, w', evs)).
Proof.
  destruct (loadIndex env w) as [[[index|e] w'] evs] eqn:H.
  - left. eauto.
  - right. exists w', evs.
    assert (He : outcomeOf (loadIndex env w) = Throw e) by (rewrite H; reflexivity).
    apply loadIndex_only_error in He. subst e. reflexivity.
Qed.

Lemma after_loadIndex {A} (env : Env) (k : DocsIndex -> M A) (w : World) :
  (exists index w' evs,
      loadIndex env w = (Ret index, w', evs)
      /\ (index <- loadIndex env ;; k index) w
         = let '(r, w2, ev2) := k index w' in (r, w2, (evs ++ ev2)%list))
  \/ (exists w' evs,
        loadIndex env w = (Throw IndexNotAvailable, w', evs)
        /\ (index <- loadIndex env ;; k index) w
           = (Throw IndexNotAvailable, w', evs)).
Proof.
  destruct (loadIndex_result env w) as [(index & w' & evs & H)|(w' & evs & H)].
  - left. exists index, w', evs. split; [exact H|].
    apply bind_Ret. exact H.
  - right. exists w', evs. split; [exact H|]. unfold bind. rewrite H.
    reflexivity.
Qed.

(** X13. [handler] validates before it loads. A "search" without a
    query or with an empty one, a "get" without a path or with an empty
    one, and an action that is none of the three are refused with the
    world untouched and no I/O. Every other request leaves the world as
    one call of [loadIndex] leaves it and does the I/O of that call and
    no other, and a failure to load is the failure of the request. What
    the request does with the value loaded is not part of this
    statement. *)
Theorem handler_validates_before_loading (env : Env) (action : string)
    (query path0 vendor0 : option string) (w : World) :
  (action = "search" -> missing query = true ->
   handler env action query path0 vendor0 w = (Failed QueryRequired, w, []))
  /\ (action = "get" -> missing path0 = true ->
      handler env action query path0 vendor0 w = (Failed PathRequired, w, []))
  /\ (action <> "search" -> action <> "get" -> action <> "list" ->
      handler env action query path0 vendor0 w
      = (Failed (InvalidAction action), w, []))
  /\ ((action = "search" /\ missing query = false)
      \/ (action = "get" /\ missing path0 = false)
      \/ action = "list" ->
      worldAfter (handler env action query path0 vendor0 w)
      = worldOf (loadIndex env w)
      /\ eventsDuring (handler env action query path0 vendor0 w)
         = eventsOf (loadIndex env w)
      /\ (forall e, outcomeOf (loadIndex env w) = Throw e ->
            replyOf (handler env action query path0 vendor0 w)
            = Failed (Raised e))).
Proof.
  split; [|split; [|split]].
  - intros -> Hq. unfold handler. cbn [String.eqb Ascii.eqb Bool.eqb].
    rewrite Hq. reflexivity.
  - intros -> Hp. unfold handler. cbn [String.eqb Ascii.eqb Bool.eqb].
    rewrite Hp. reflexivity.
  - intros Hs Hg Hl. unfold handler.
    apply String.eqb_neq in Hs, Hg, Hl. rewrite Hs, Hg, Hl. reflexivity.
  - unfold handler, serve, searchDocs, getDocContent, listApis, bind, ret,
      throw, worldAfter, eventsDuring, replyOf, worldOf, eventsOf, outcomeOf.
    intros [[-> Hq]|[[-> Hp]| ->]]; cbn [String.eqb Ascii.eqb Bool.eqb];
      rewrite ?Hq, ?Hp;
      destruct (loadIndex env w) as [[[index|e0] w'] evs].
    + cbn. rewrite app_nil_r.
      split; [reflexivity|]. split; [reflexivity|discriminate].
    + cbn. split; [reflexivity|]. split; [reflexivity|congruence].
    + cbn [fst snd].
      destruct (find _ (entries index)) as [entry|]; cbn; rewrite app_nil_r;
        (split; [reflexivity|]; split; [reflexivity|discriminate]).
    + cbn. split; [reflexivity|]. split; [reflexivity|congruence].
    + cbn. rewrite app_nil_r.
      split; [reflexivity|]. split; [reflexivity|discriminate].
    + cbn. split; [reflexivity|]. split; [reflexivity|congruence].
Qed.

Lemma handler_validates_before_loading_witness :
  let env := online 1700003600000 (JsonText (JDoc oneEntryIndex)) in
  let w := sampleWorld sampleIndex 1700000000000 in
  handler env "search" (Some "") None None w = (Failed QueryRequired, w, [])
  /\ handler env "get" None None None w = (Failed PathRequired, w, [])
  /\ handler env "delete" None None None w
     = (Failed (InvalidAction "delete"), w, [])
  /\ worldAfter (handler env "list" None None None w)
     = worldOf (loadIndex env w)
  /\ eventsDuring (handler env "list" None None None w)
     = eventsOf (loadIndex env w).
Proof.
  intros env w.
  split; [|split; [|split]].
  - apply (proj1 (handler_validates_before_loading
                    env "search" (Some "") None None w)); reflexivity.
  - apply (proj1 (proj2 (handler_validates_before_loading
                           env "get" None None None w))); reflexivity.
  - apply (proj1 (proj2 (proj2 (handler_validates_before_loading
                                  env "delete" None None None w))));
      discriminate.
  - destruct (proj2 (proj2 (proj2 (handler_validates_before_loading
                                     env "list" None None None w)))
                (or_intror (or_intror eq_refl))) as (Hw & He & _).
    split; [exact Hw|exact He].
Defined.

(** An invalid request made when the memory cache is stale: nothing is
    fetched, although any valid request would have fetched. *)
Example handler_refusal_does_not_fetch :
  let env := online 1700003600000 (JsonText (JDoc oneEntryIndex)) in
  let w := sampleWorld sampleIndex 1700000000000 in
  eventsDuring (handler env "search" None None None w) = []
  /\ In EvFetch (eventsDuring (handler env "list" None None None w)).
Proof. split; [reflexivity|]. vm_compute. auto. Qed.

(** X14. A search through [handler] uses the limit 20: when [loadIndex]
    returns an index and the query is not empty, the reply lists the first
    20 entries of the ranking of that index for the query, each with its
    path, title, description, vendor, model and capability, and counts
    them: as many as have a positive score when these are fewer than 20,
    and 20 otherwise. When no entry has a positive score the reply is "No
    documentation found" with an empty list. The test of the query only
    refuses the empty string: a query of white space passes it, and no
    entry has a positive score for it. *)
Theorem handler_search_reply (env : Env) (w w' : World) (index : DocsIndex)
    (evs : list Event) (query : string) (path0 vendor0 : option string) :
  loadIndex env w = (Ret index, w', evs) ->
  query <> "" ->
  (filter (positive query) (entries index) <> [] ->
   handler env "search" (Some query) path0 vendor0 w
   = (Returned
        (VObject [("query", VString query);
                  ("resultCount",
                   VNumber (Z.of_nat (Nat.min 20
                      (length (filter (positive query) (entries index))))));
                  ("results",
                   VArray (map resultSummary
                               (firstn 20 (ranked index query))))]),
      w', evs))
  /\ (filter (positive query) (entries index) = [] ->
      handler env "search" (Some query) path0 vendor0 w
      = (Returned
           (VObject [("query", VString query);
                     ("results", VArray []);
                     ("message",
                      VString "No documentation found matching your query.");
                     ("suggestion",
                      VString "Try different keywords or use 'list' action to see available APIs.")]),
         w', evs))
  /\ firstn 20 (ranked index query) = searchIn index query 20
  /\ length (firstn 20 (ranked index query))
     = Nat.min 20 (length (filter (positive query) (entries index)))
  /\ (forall e, In e (firstn 20 (ranked index query)) ->
                In e (entries index) /\ 0 < scoreOf query e)
  /\ (blank query -> filter (positive query) (entries index) = []).
Proof.
  intros Hload Hq. apply truthy_iff in Hq.
  assert (Hsearch : searchIn index query 20 = firstn 20 (ranked index query)).
  { rewrite searchIn_ranked, slice0_firstn by lia. reflexivity. }
  assert (Hlen : length (firstn 20 (ranked index query))
                 = Nat.min 20 (length (filter (positive query) (entries index)))).
  { rewrite length_firstn.
    rewrite (Permutation_length (ranked_perm index query)). reflexivity. }
  assert (Hrun : handler env "search" (Some query) path0 vendor0 w
                 = (Returned (searchReply query (firstn 20 (ranked index query))),
                    w', evs)).
  { unfold handler. cbn [String.eqb Ascii.eqb Bool.eqb missing argument].
    rewrite Hq. cbn [negb]. unfold serve.
    rewrite (searchDocs_spec env w w' index evs query None Hload).
    cbn [limitOrDefault]. unfold DEFAULT_LIMIT. rewrite Hsearch. reflexivity. }
  split; [|split; [|split; [|split; [|split]]]].
  - intros Hne. rewrite Hrun. unfold searchReply. rewrite Hlen.
    destruct (filter (positive query) (entries index)) as [|e l];
      [contradiction|].
    reflexivity.
  - intros Hnil. rewrite Hrun. unfold searchReply. rewrite Hlen, Hnil.
    reflexivity.
  - symmetry. exact Hsearch.
  - exact Hlen.
  - intros e He. rewrite <- Hsearch in He.
    apply (searchIn_entries index query 20 e He).
  - intros Hb. clear Hlen.
    induction (entries index) as [|e l IH]; [reflexivity|].
    cbn [filter]. unfold positive at 1. rewrite scoreOf_sum.
    unfold queryTermsOf, JS.splitSpaces.
    rewrite (blank_split _ false (blank_lower _ Hb)). cbn. exact IH.
Qed.

Lemma handler_search_reply_witness :
  let env := offline 1700000060000 in
  let w := sampleWorld sampleIndex 1700000000000 in
  handler env "search" (Some "gpt-4o") None None w
  = (Returned
       (VObject [("query", VString "gpt-4o");
                 ("resultCount", VNumber 2);
                 ("results",
                  VArray [resultSummary gpt4o; resultSummary gpt4oImage])]),
     w, [])
  /\ length (firstn 20 (ranked sampleIndex "gpt-4o")) = 2%nat.
Proof.
  intros env w.
  destruct (handler_search_reply env w w sampleIndex [] "gpt-4o" None None)
    as (Hsome & _ & _ & Hlen & _).
  - reflexivity.
  - discriminate.
  - split; [|exact Hlen]. apply Hsome. discriminate.
Defined.

(** The sample index has two entries for "gpt-4o": the reply counts and
    lists both, best first, ties in the order of the index. *)
Example handler_search_sample :
  replyOf (handler (offline 1700000060000) "search" (Some "gpt-4o") None None
                   (sampleWorld sampleIndex 1700000000000))
  = Returned
      (VObject [("query", VString "gpt-4o");
                ("resultCount", VNumber 2);
                ("results",
                 VArray [resultSummary gpt4o; resultSummary gpt4oImage])]).
Proof. reflexivity. Qed.

Lemma append_nil_r (s : string) : s ++ "" = s.
Proof. induction s as [|c s IH]; cbn; [reflexivity|]. rewrite IH. reflexivity. Qed.

Lemma withoutUnit_app (c : ascii) (a b : string) :
  withoutUnit c a -> withoutUnit c b -> withoutUnit c (a ++ b).
Proof.
  induction a as [|x a IH]; cbn; [auto|]. intros [Hx Ha] Hb. auto.
Qed.

Lemma pop_cons (x y : string) (l : list string) :
  Str.pop l = Some x -> Str.pop (y :: l) = Some x.
Proof.
  unfold Str.pop. cbn [rev]. destruct (rev l) as [|z r]; [discriminate|].
  cbn. auto.
Qed.

(** The last piece of a split: it holds no separator, and the text is
    that piece, or ends with a separator followed by it. *)
Lemma split_last (sep : ascii) (s cur : string) :
  withoutUnit sep cur ->
  exists last,
    Str.pop (Str.splitFrom sep cur s) = Some last
    /\ withoutUnit sep last
    /\ (cur ++ s = last \/ exists pre, cur ++ s = pre ++ String sep last).
Proof.
  revert cur. induction s as [|c s IH]; intros cur Hcur; cbn [Str.splitFrom].
  - exists cur. rewrite append_nil_r. auto.
  - destruct (Ascii.eqb_spec c sep) as [->|Hne].
    + destruct (IH "" I) as (last & Hpop & Hlast & Hshape).
      exists last. split; [apply pop_cons; exact Hpop|].
      split; [exact Hlast|]. right. cbn in Hshape.
      destruct Hshape as [->|(pre & ->)].
      * exists cur. reflexivity.
      * exists (cur ++ String sep pre). rewrite append_assoc. reflexivity.
    + destruct (IH (cur ++ String c "")) as (last & Hpop & Hlast & Hshape).
      { apply withoutUnit_app; [exact Hcur|]. cbn. auto. }
      exists last. split; [exact Hpop|]. split; [exact Hlast|].
      rewrite append_assoc in Hshape. exact Hshape.
Qed.

(** X15. The title of a reply is always a string: the title of the entry
    when it has one, and otherwise the last segment of the path, which
    holds no slash and is what follows the last slash of the path (the
    whole path when it has none). *)
Theorem title_falls_back_to_last_segment (title0 path0 : string) :
  exists s,
    titleOr title0 path0 = VString s
    /\ (title0 <> "" -> s = title0)
    /\ (title0 = "" ->
        withoutUnit "/"%char s
        /\ (path0 = s \/ exists pre, path0 = pre ++ "/" ++ s)).
Proof.
  unfold titleOr.
  destruct (split_last "/"%char path0 "" I) as (last & Hpop & Hlast & Hshape).
  unfold Str.split. rewrite Hpop.
  destruct (JS.truthy title0) eqn:Ht.
  - exists title0. split; [reflexivity|]. split; [auto|].
    intros ->. discriminate.
  - exists last. split; [reflexivity|]. split.
    + intros Hne. apply truthy_iff in Hne. congruence.
    + intros _. split; [exact Hlast|]. exact Hshape.
Qed.

(** ** The resources *)

(** X16. Reading a resource loads the index first, whatever the URI: the
    world and the I/O of the request are those of [loadIndex], and a
    failure to load is the failure of the request. An unknown URI is thus
    refused with "resource not found" only once the index has loaded,
    and the quickstart resource is "not found" exactly when no entry has
    the path [quickstart]. *)
Theorem readResource_loads_first (env : Env) (uri : string) (w : World) :
  worldAfter (readResource env uri w) = worldOf (loadIndex env w)
  /\ eventsDuring (readResource env uri w) = eventsOf (loadIndex env w)
  /\ (forall e, outcomeOf (loadIndex env w) = Throw e ->
        replyOf (readResource env uri w) = Failed (Raised e))
  /\ (forall index,
        outcomeOf (loadIndex env w) = Ret index ->
        uri <> "gptproto://docs-index" ->
        uri <> "gptproto://quickstart" ->
        uri <> "gptproto://authentication" ->
        replyOf (readResource env uri w) = Failed (ResourceNotFound uri))
  /\ (forall index,
        outcomeOf (loadIndex env w) = Ret index ->
        (replyOf (readResource env "gptproto://quickstart" w)
         = Failed QuickstartNotFound
         <-> forall e, In e (entries index) -> path e <> "quickstart")).
Proof.
  unfold readResource, serve, worldAfter, eventsDuring, replyOf, worldOf,
    eventsOf, outcomeOf.
  destruct (loadIndex env w) as [[[index|e0] w'] evs]; cbn [fst snd].
  - split; [reflexivity|]. split; [reflexivity|].
    split; [discriminate|]. split.
    + intros index' _ H1 H2 H3.
      apply String.eqb_neq in H1, H2, H3. rewrite H1, H2, H3. reflexivity.
    + intros index' Hi. injection Hi as <-.
      cbn [String.eqb Ascii.eqb Bool.eqb].
      rewrite <- find_path_none.
      destruct (find _ (entries index)); split; congruence.
  - split; [reflexivity|]. split; [reflexivity|].
    split; [intros e He; congruence|]. split; discriminate.
Qed.

(** ** The arguments of a tool call *)







(** ** JSON schemas *)

Lemma wellFormed_converts (zodSchema : Zod) :
  wellFormed zodSchema = true ->
  exists s, zodSchemaToJsonSchema zodSchema = Some s.
Proof.
  revert zodSchema. fix IH 1.
  intros [d|d|d|d [e|]|d [l|]|d [v|]|d [i|]|d [o|]|d [i|]|n d];
    cbn [wellFormed zodSchemaToJsonSchema]; intros H;
    try discriminate; eauto.
  - destruct (IH e H) as [s ->]. eauto.
  - enough (exists r, eachEntry (fun value => match value with
                                              | None => None
                                              | Some value => zodSchemaToJsonSchema value
                                              end) l = Some r)
      as [r ->] by eauto.
    revert l H. fix IHl 1.
    intros [|[k [v|]] l]; cbn [forallb snd eachEntry]; intros H;
      try discriminate; eauto.
    apply andb_prop in H as [Hv Hl].
    destruct (IH v Hv) as [s ->]. destruct (IHl l Hl) as [r ->]. eauto.
  - apply andb_prop in H as [Hlen Hall].
    destruct o as [|a [|b [|c o]]]; try discriminate; eauto.
    cbn [forallb] in Hall. destruct a as [a|]; [|discriminate].
    apply andb_prop in Hall as [Ha _]. apply (IH a Ha).
Qed.

Lemma converted_type (zodSchema : Zod) (s : JSONSchema) :
  zodSchemaToJsonSchema zodSchema = Some s ->
  exists t, schemaType s = Some t /\ In t jsonTypes.
Proof.
  revert zodSchema s. fix IH 1.
  intros [d|d|d|d [e|]|d [l|]|d v|d [i|]|d [o|]|d [i|]|n d] s;
    cbn [zodSchemaToJsonSchema]; intros H; try discriminate;
    try (injection H as <-; eexists; split;
         [reflexivity|unfold jsonTypes; cbn; tauto]).
  - destruct (zodSchemaToJsonSchema e); [|discriminate].
    injection H as <-. eexists; split; [reflexivity|unfold jsonTypes; cbn; tauto].
  - destruct (eachEntry _ l); [|discriminate].
    injection H as <-. eexists; split; [reflexivity|unfold jsonTypes; cbn; tauto].
  - apply (IH i s H).
  - destruct o as [|a [|b [|c o]]];
      try (injection H as <-; eexists; split;
           [reflexivity|unfold jsonTypes; cbn; tauto]).
    destruct a as [a|]; [|discriminate]. apply (IH a s H).
  - apply (IH i s H).
Qed.

(** X19. [zodSchemaToJsonSchema] returns for every schema that has all
    its parts, and whenever it returns, the schema it gives has a type,
    one of "string", "number", "boolean", "array" and "object". An
    optional or default wrapper is printed as what it wraps, its own
    description being dropped, and a union of two options as its first
    option. The function checks none of the parts it reads: a union of
    two options whose first option is missing makes it throw, as does a
    missing element, shape, wrapped schema or list of options; a union of
    any other number of options is printed as a string without a look at
    the options. *)
Theorem zodSchemaToJsonSchema_type (zodSchema : Zod) :
  (wellFormed zodSchema = true ->
   exists s, zodSchemaToJsonSchema zodSchema = Some s)
  /\ (forall s, zodSchemaToJsonSchema zodSchema = Some s ->
        exists t, schemaType s = Some t /\ In t jsonTypes)
  /\ (forall d, zodSchemaToJsonSchema (ZodOptional d (Some zodSchema))
                = zodSchemaToJsonSchema zodSchema)
  /\ (forall d, zodSchemaToJsonSchema (ZodDefault d (Some zodSchema))
                = zodSchemaToJsonSchema zodSchema)
  /\ (forall d second,
        zodSchemaToJsonSchema (ZodUnion d (Some [Some zodSchema; second]))
        = zodSchemaToJsonSchema zodSchema)
  /\ (forall d second,
        zodSchemaToJsonSchema (ZodUnion d (Some [None; second])) = None)
  /\ (forall d options, length options <> 2%nat ->
        zodSchemaToJsonSchema (ZodUnion d (Some options))
        = Some (MkSchema (Some "string") d None None None))
  /\ (forall d, zodSchemaToJsonSchema (ZodArray d None) = None
                /\ zodSchemaToJsonSchema (ZodObject d None) = None
                /\ zodSchemaToJsonSchema (ZodOptional d None) = None
                /\ zodSchemaToJsonSchema (ZodUnion d None) = None
                /\ zodSchemaToJsonSchema (ZodDefault d None) = None).
Proof.
  split; [apply wellFormed_converts|].
  split; [apply converted_type|].
  split; [reflexivity|]. split; [reflexivity|]. split; [reflexivity|].
  split; [reflexivity|].
  split; [|intros d; repeat split].
  intros d [|a [|b [|c options]]] Hlen; try reflexivity.
  cbn in Hlen. congruence.
Qed.

Lemma zodSchemaToJsonSchema_type_witness :
  exists s, zodSchemaToJsonSchema inputObject = Some s
            /\ exists t, schemaType s = Some t /\ In t jsonTypes.
Proof.
  destruct (zodSchemaToJsonSchema_type inputObject) as (Hret & Htype & _).
  destruct (Hret eq_refl) as [s Hs].
  exists s. split; [exact Hs|]. apply (Htype s Hs).
Defined.

(** What the tool list shows for [inputSchema]: the action keeps its
    description and its three values, the three optional arguments are
    plain strings and have lost their descriptions. *)
Example zodSchemaToJsonSchema_inputSchema :
  map (fun entry => (fst entry, zodSchemaToJsonSchema (snd entry))) inputSchema
  = [("action",
      Some (MkSchema (Some "string")
              (Some "Action to perform: 'search' to find docs by keyword, 'get' to fetch full document content, 'list' to list available APIs by vendor")
              None None (Some ["search"; "get"; "list"])));
     ("query", Some (MkSchema (Some "string") None None None None));
     ("path", Some (MkSchema (Some "string") None None None None));
     ("vendor", Some (MkSchema (Some "string") None None None None))].
Proof. reflexivity. Qed.

(** A union of two options of which the first is an empty slot: the
    conversion throws, also inside an object that is sound otherwise. *)
Example zodSchemaToJsonSchema_missing_option :
  zodSchemaToJsonSchema
    (ZodObject None
       (Some [("action", Some (ZodString None));
              ("either",
               Some (ZodUnion None (Some [None; Some (ZodString None)])))]))
  = None.
Proof. reflexivity. Qed.

(** ** The index builder *)

Lemma split_pieces (sep : ascii) (s cur : string) :
  withoutUnit sep cur ->
  forall piece, In piece (Str.splitFrom sep cur s) -> withoutUnit sep piece.
Proof.
  revert cur. induction s as [|c s IH]; intros cur Hcur piece; cbn.
  - intros [<-|[]]. exact Hcur.
  - destruct (Ascii.eqb_spec c sep) as [->|Hne].
    + intros [<-|Hin]; [exact Hcur|]. apply (IH "" I piece Hin).
    + apply IH. apply withoutUnit_app; [exact Hcur|]. cbn. auto.
Qed.

Lemma partOr_clean (sep : ascii) (s : string) (i : nat) :
  withoutUnit sep (Str.partOr (Str.split sep s) i).
Proof.
  unfold Str.partOr, Str.split.
  destruct (nth_in_or_default i (Str.splitFrom sep "" s) "") as [Hin| ->].
  - apply (split_pieces sep s "" I _ Hin).
  - exact I.
Qed.

Lemma splitFrom_clean (sep : ascii) (a cur : string) :
  withoutUnit sep a -> Str.splitFrom sep cur a = [cur ++ a].
Proof.
  revert cur. induction a as [|c a IH]; intros cur; cbn.
  - intros _. rewrite append_nil_r. reflexivity.
  - intros [Hc Ha]. apply Ascii.eqb_neq in Hc. rewrite Hc.
    rewrite (IH _ Ha), append_assoc. reflexivity.
Qed.

Lemma splitFrom_joined (sep : ascii) (a b cur : string) :
  withoutUnit sep a ->
  Str.splitFrom sep cur (a ++ String sep b)
  = (cur ++ a) :: Str.splitFrom sep "" b.
Proof.
  revert cur. induction a as [|c a IH]; intros cur; cbn.
  - intros _. rewrite Ascii.eqb_refl, append_nil_r. reflexivity.
  - intros [Hc Ha]. apply Ascii.eqb_neq in Hc. rewrite Hc.
    rewrite (IH _ Ha), append_assoc. reflexivity.
Qed.

Lemma startsWith_app (pre rest : string) : Str.startsWith (pre ++ rest) pre = true.
Proof. unfold Str.startsWith. apply prefix_iff. eauto. Qed.

Lemma orElse_empty (s : string) : Str.orElse s "" = s.
Proof. destruct s; reflexivity. Qed.

Lemma parsePathMetadata_facts (path0 : string) :
  In (meta_category (parsePathMetadata path0)) categories
  /\ (meta_category (parsePathMetadata path0) <> "api" ->
      meta_vendor (parsePathMetadata path0) = ""
      /\ meta_model (parsePathMetadata path0) = ""
      /\ meta_format (parsePathMetadata path0) = ""
      /\ meta_capability (parsePathMetadata path0) = "")
  /\ (meta_category (parsePathMetadata path0) = "api" ->
      Str.startsWith path0 "docs/allapi/" = true
      \/ Str.startsWith path0 "docs/api/" = true).
Proof.
  unfold parsePathMetadata, categories.
  destruct (Str.startsWith path0 "docs/allapi/") eqn:H1; cbn [orb].
  { cbn. repeat split; try tauto; congruence. }
  destruct (Str.startsWith path0 "docs/api/") eqn:H2; cbn [andb].
  - destruct (negb (String.eqb (Str.partOr (Str.split "/" path0) 2)
                               "quickstart")).
    + cbn. repeat split; try tauto; congruence.
    + destruct (Str.startsWith path0 "docs/guide/");
        [|destruct (Str.startsWith path0 "docs/api/quickstart/")];
        cbn; repeat split; try tauto; try discriminate.
  - destruct (Str.startsWith path0 "docs/guide/");
      [|destruct (Str.startsWith path0 "docs/api/quickstart/")];
      cbn; repeat split; try tauto; try discriminate.
Qed.

(** X20. [parsePathMetadata] gives one of the four categories "api",
    "guide", "quickstart" and "getting-started". Only a path under
    [docs/allapi/] or [docs/api/] is an "api" page, and only an "api"
    page has a vendor, a model, a format or a capability; none of the
    four ever holds a slash. A page is a "quickstart" page exactly when
    its path starts with [docs/api/quickstart/]. *)
Theorem parsePathMetadata_shape (path0 : string) :
  In (meta_category (parsePathMetadata path0)) categories
  /\ (meta_category (parsePathMetadata path0) <> "api" ->
      meta_vendor (parsePathMetadata path0) = ""
      /\ meta_model (parsePathMetadata path0) = ""
      /\ meta_format (parsePathMetadata path0) = ""
      /\ meta_capability (parsePathMetadata path0) = "")
  /\ (meta_category (parsePathMetadata path0) = "api" ->
      Str.startsWith path0 "docs/allapi/" = true
      \/ Str.startsWith path0 "docs/api/" = true)
  /\ withoutUnit "/"%char (meta_vendor (parsePathMetadata path0))
  /\ withoutUnit "/"%char (meta_model (parsePathMetadata path0))
  /\ withoutUnit "/"%char (meta_format (parsePathMetadata path0))
  /\ withoutUnit "/"%char (meta_capability (parsePathMetadata path0))
  /\ (meta_category (parsePathMetadata path0) = "quickstart"
      <-> Str.startsWith path0 "docs/api/quickstart/" = true).
Proof.
  destruct (parsePathMetadata_facts path0) as (Hcat & Hrest & Hapi).
  split; [exact Hcat|]. split; [exact Hrest|]. split; [exact Hapi|].
  assert (Hclean : forall i,
            withoutUnit "/"%char
              (if String.eqb (meta_category (parsePathMetadata path0)) "api"
               then Str.partOr (Str.split "/" path0) i else "")).
  { intros i. destruct (String.eqb _ "api"); [apply partOr_clean|exact I]. }
  assert (Hfields :
    meta_vendor (parsePathMetadata path0)
    = (if String.eqb (meta_category (parsePathMetadata path0)) "api"
       then Str.partOr (Str.split "/" path0) 2 else "")
    /\ meta_model (parsePathMetadata path0)
       = (if String.eqb (meta_category (parsePathMetadata path0)) "api"
          then Str.partOr (Str.split "/" path0) 3 else "")
    /\ meta_format (parsePathMetadata path0)
       = (if String.eqb (meta_category (parsePathMetadata path0)) "api"
          then Str.partOr (Str.split "/" path0) 4 else "")
    /\ meta_capability (parsePathMetadata path0)
       = (if String.eqb (meta_category (parsePathMetadata path0)) "api"
          then Str.partOr (Str.split "/" path0) 5 else "")).
  { unfold parsePathMetadata.
    destruct (Str.startsWith path0 "docs/allapi/"
              || Str.startsWith path0 "docs/api/"
                 && negb (String.eqb (Str.partOr (Str.split "/" path0) 2)
                                     "quickstart"))%bool;
      [cbn; auto|].
    destruct (Str.startsWith path0 "docs/guide/");
      [|destruct (Str.startsWith path0 "docs/api/quickstart/")]; cbn; auto. }
  destruct Hfields as (-> & -> & -> & ->).
  repeat (split; [apply Hclean|]).
  split.
  - unfold parsePathMetadata.
    destruct (Str.startsWith path0 "docs/allapi/"
              || Str.startsWith path0 "docs/api/"
                 && negb (String.eqb (Str.partOr (Str.split "/" path0) 2)
                                     "quickstart"))%bool;
      [cbn; discriminate|].
    destruct (Str.startsWith path0 "docs/guide/"); [cbn; discriminate|].
    destruct (Str.startsWith path0 "docs/api/quickstart/"); auto.
    cbn. discriminate.
  - intros Hq. unfold Str.startsWith in Hq. apply prefix_iff in Hq.
    destruct Hq as (rest & ->). unfold parsePathMetadata.
    rewrite (startsWith_app "docs/api/quickstart/" rest).
    vm_compute. reflexivity.
Qed.

Lemma split_api_path (root v m f c : string) :
  withoutUnit "/"%char root -> withoutUnit "/"%char v ->
  withoutUnit "/"%char m -> withoutUnit "/"%char f ->
  withoutUnit "/"%char c ->
  Str.split "/" ("docs/" ++ root ++ "/" ++ v ++ "/" ++ m ++ "/" ++ f ++ "/" ++ c)
  = ["docs"; root; v; m; f; c].
Proof.
  intros Hr Hv Hm Hf Hc. unfold Str.split.
  change ("docs/" ++ root ++ "/" ++ v ++ "/" ++ m ++ "/" ++ f ++ "/" ++ c)
    with ("docs" ++ String "/"%char
            (root ++ String "/"%char
               (v ++ String "/"%char
                  (m ++ String "/"%char (f ++ String "/"%char c))))).
  rewrite !splitFrom_joined, splitFrom_clean by (assumption || (cbn; intuition discriminate)).
  reflexivity.
Qed.

(** X21. [parsePathMetadata] reads back the scheme of the paths of the
    API pages: for a vendor, a model, a format and a capability that hold
    no slash, the path docs/allapi/vendor/model/format/capability gives
    exactly these four with the category "api", and so does the same
    path under docs/api/ unless the vendor is "quickstart". *)
Theorem parsePathMetadata_reads_api_path (v m f c : string) :
  withoutUnit "/"%char v -> withoutUnit "/"%char m ->
  withoutUnit "/"%char f -> withoutUnit "/"%char c ->
  parsePathMetadata
    ("docs/allapi/" ++ v ++ "/" ++ m ++ "/" ++ f ++ "/" ++ c)
  = {| meta_vendor := v; meta_model := m; meta_format := f;
       meta_capability := c; meta_category := "api" |}
  /\ (v <> "quickstart" ->
      parsePathMetadata
        ("docs/api/" ++ v ++ "/" ++ m ++ "/" ++ f ++ "/" ++ c)
      = {| meta_vendor := v; meta_model := m; meta_format := f;
           meta_capability := c; meta_category := "api" |}).
Proof.
  intros Hv Hm Hf Hc. split.
  - unfold parsePathMetadata.
    rewrite (startsWith_app "docs/allapi/"). cbn [orb].
    change ("docs/allapi/" ++ v ++ "/" ++ m ++ "/" ++ f ++ "/" ++ c)
      with ("docs/" ++ "allapi" ++ "/" ++ v ++ "/" ++ m ++ "/" ++ f ++ "/" ++ c).
    rewrite split_api_path by (assumption || (cbn; intuition discriminate)).
    reflexivity.
  - intros Hq. unfold parsePathMetadata.
    rewrite (startsWith_app "docs/api/").
    change ("docs/api/" ++ v ++ "/" ++ m ++ "/" ++ f ++ "/" ++ c)
      with ("docs/" ++ "api" ++ "/" ++ v ++ "/" ++ m ++ "/" ++ f ++ "/" ++ c).
    rewrite split_api_path by (assumption || (cbn; intuition discriminate)).
    cbn [Str.partOr nth].
    apply String.eqb_neq in Hq. rewrite Hq. cbn [negb andb].
    rewrite orb_true_r. reflexivity.
Qed.

Lemma parsePathMetadata_reads_api_path_witness :
  parsePathMetadata
    ("docs/allapi/" ++ "OpenAI" ++ "/" ++ "gpt-4o" ++ "/" ++ "official-format"
     ++ "/" ++ "text-to-text-chat")
  = {| meta_vendor := "OpenAI"; meta_model := "gpt-4o";
       meta_format := "official-format";
       meta_capability := "text-to-text-chat"; meta_category := "api" |}
  /\ ("OpenAI" <> "quickstart" ->
      parsePathMetadata
        ("docs/api/" ++ "OpenAI" ++ "/" ++ "gpt-4o" ++ "/" ++ "official-format"
         ++ "/" ++ "text-to-text-chat")
      = {| meta_vendor := "OpenAI"; meta_model := "gpt-4o";
           meta_format := "official-format";
           meta_capability := "text-to-text-chat"; meta_category := "api" |}).
Proof.
  apply (parsePathMetadata_reads_api_path
           "OpenAI" "gpt-4o" "official-format" "text-to-text-chat");
    cbn; intuition discriminate.
Defined.

Lemma category_nonempty (path0 : string) :
  JS.truthy (meta_category (parsePathMetadata path0)) = true.
Proof.
  destruct (parsePathMetadata_facts path0) as (Hcat & _).
  unfold categories in Hcat. cbn in Hcat.
  destruct Hcat as [<-|[<-|[<-|[<-|[]]]]]; reflexivity.
Qed.

Lemma addPage_pageEntry (readMdxFile : string -> MdxData)
    (es : list DocEntry) (vs : JS.OrderedSet) (page : string) :
  addPage readMdxFile (es, vs) page
  = ((es ++ [pageEntry readMdxFile page])%list,
     if JS.truthy (vendor (pageEntry readMdxFile page))
     then JS.setAdd vs (vendor (pageEntry readMdxFile page))
     else vs).
Proof.
  unfold addPage, pageEntry. cbn [vendor].
  rewrite !orElse_empty. unfold Str.orElse at 1.
  rewrite category_nonempty. reflexivity.
Qed.

Lemma buildLoop (readMdxFile : string -> MdxData) (pages : list string)
    (es : list DocEntry) (vs : JS.OrderedSet) :
  NoDup vs ->
  (forall v, In v vs <-> v <> "" /\ exists e, In e es /\ vendor e = v) ->
  exists vs',
    fold_left (addPage readMdxFile) pages (es, vs)
    = ((es ++ map (pageEntry readMdxFile) pages)%list, vs')
    /\ NoDup vs'
    /\ (forall v, In v vs' <->
                  v <> ""
                  /\ exists e, In e (es ++ map (pageEntry readMdxFile) pages)
                               /\ vendor e = v).
Proof.
  revert es vs. induction pages as [|page pages IH]; intros es vs Hnd Hvs.
  - exists vs. cbn. rewrite app_nil_r. auto.
  - cbn [fold_left map]. rewrite addPage_pageEntry.
    set (e0 := pageEntry readMdxFile page).
    destruct (IH (es ++ [e0])%list
                 (if JS.truthy (vendor e0) then JS.setAdd vs (vendor e0) else vs))
      as (vs' & Hfold & Hnd' & Hvs').
    + destruct (JS.truthy (vendor e0)); [apply setAdd_NoDup|]; exact Hnd.
    + intros v. destruct (JS.truthy (vendor e0)) eqn:Ht.
      * rewrite setAdd_In, Hvs. apply truthy_iff in Ht. split.
        -- intros [(Hv & e & He & Hev)| ->].
           ++ split; [exact Hv|]. exists e. rewrite in_app_iff. auto.
           ++ split; [exact Ht|]. exists e0. rewrite in_app_iff. cbn. auto.
        -- intros (Hv & e & He & Hev). apply in_app_iff in He.
           destruct He as [He|[<-|[]]]; [left; eauto|right; auto].
      * rewrite Hvs. split.
        -- intros (Hv & e & He & Hev). split; [exact Hv|]. exists e.
           rewrite in_app_iff. auto.
        -- intros (Hv & e & He & Hev). split; [exact Hv|].
           apply in_app_iff in He. destruct He as [He|[<-|[]]]; [eauto|].
           exfalso. apply truthy_iff in Hv. congruence.
    + exists vs'. rewrite <- app_assoc in Hfold, Hvs'. cbn in Hfold, Hvs'.
      auto.
Qed.

Lemma buildIndex_facts (docsJson : JValue) (readMdxFile : string -> MdxData)
    (now : string) (index : DocsIndex) :
  buildIndex docsJson readMdxFile now = Some index ->
  exists pages,
    parseDocsJson docsJson = Some pages
    /\ entries index = map (pageEntry readMdxFile) pages
    /\ totalDocs index = Z.of_nat (length (entries index))
    /\ ascending (vendors index)
    /\ NoDup (vendors index)
    /\ (forall v, In v (vendors index) <->
                  v <> "" /\ exists e, In e (entries index) /\ vendor e = v).
Proof.
  unfold buildIndex.
  destruct (parseDocsJson docsJson) as [pages|]; [|discriminate].
  destruct (buildLoop readMdxFile pages [] []) as (vs & Hfold & Hnd & Hvs).
  { constructor. }
  { intros v. split; [intros []|intros (_ & e & [] & _)]. }
  intros H.
  assert (Hindex : Some index
                   = Some {| version := "1.0.0"; generatedAt := now;
                             totalDocs :=
                               Z.of_nat (length (map (pageEntry readMdxFile) pages));
                             vendors := JS.sort JS.compareStrings vs;
                             entries := map (pageEntry readMdxFile) pages |}).
  { rewrite <- H. cbn [app] in Hfold.
    exact (f_equal (fun st : list DocEntry * JS.OrderedSet =>
                      let '(entries0, vendors0) := st in
                      Some {| version := "1.0.0"; generatedAt := now;
                              totalDocs := Z.of_nat (length entries0);
                              vendors := JS.sort JS.compareStrings vendors0;
                              entries := entries0 |}) Hfold). }
  injection Hindex as ->. cbn [app] in Hvs.
  exists pages. cbn [entries totalDocs vendors].
  destruct (sort_set_ascending vs Hnd) as (Hasc & Hnd' & Hmem).
  split; [reflexivity|]. split; [reflexivity|]. split; [reflexivity|].
  split; [exact Hasc|]. split; [exact Hnd'|].
  intros v. rewrite Hmem. apply Hvs.
Qed.

(** X22. Every index that [buildIndex] writes is well formed: [totalDocs]
    is the number of entries, [vendors] is the strictly ascending list of
    the distinct non-empty vendors of the entries, and the entries are
    the pages of the navigation, one per page and in that order, each
    with the metadata read off its path; so the paths of the entries are
    unique exactly when no page is listed twice. *)
Theorem buildIndex_well_formed (docsJson : JValue)
    (readMdxFile : string -> MdxData) (now : string) (index : DocsIndex) :
  buildIndex docsJson readMdxFile now = Some index ->
  totalDocs index = Z.of_nat (length (entries index))
  /\ ascending (vendors index)
  /\ NoDup (vendors index)
  /\ (forall v, In v (vendors index) <->
                v <> "" /\ exists e, In e (entries index) /\ vendor e = v)
  /\ parseDocsJson docsJson = Some (map path (entries index))
  /\ (forall e, In e (entries index) -> e = pageEntry readMdxFile (path e))
  /\ (NoDup (map path (entries index))
      <-> forall pages, parseDocsJson docsJson = Some pages -> NoDup pages).
Proof.
  intros H.
  destruct (buildIndex_facts docsJson readMdxFile now index H)
    as (pages & Hp & He & Ht & Ha & Hn & Hv).
  assert (Hpaths : map path (entries index) = pages).
  { rewrite He, map_map. cbn [pageEntry path]. apply map_id. }
  split; [exact Ht|]. split; [exact Ha|]. split; [exact Hn|].
  split; [exact Hv|]. split; [rewrite Hpaths; exact Hp|]. split.
  - intros e Hin. rewrite He in Hin. apply in_map_iff in Hin.
    destruct Hin as (page & <- & _). reflexivity.
  - rewrite Hpaths. split.
    + intros Hnd pages' Hp'. rewrite Hp in Hp'. injection Hp' as <-.
      exact Hnd.
    + intros Hall. apply Hall. exact Hp.
Qed.

Lemma buildIndex_well_formed_witness :
  let docsJson :=
    VObject [("navigation",
              VObject [("tabs",
                        VArray [VObject [("tab", VString "API");
                                         ("groups",
                                          VArray [VObject
                                            [("group", VString "OpenAI");
                                             ("pages",
                                              VArray [VString "docs/allapi/OpenAI/gpt-4o/official-format/text-to-text-chat";
                                                      VString "quickstart"])]])]])])] in
  let readMdxFile := fun _ : string =>
    {| mdx_title := ""; mdx_description := ""; mdx_content := "" |} in
  let index :=
    {| version := "1.0.0"; generatedAt := "2025-01-01T00:00:00.000Z";
       totalDocs := 2; vendors := ["OpenAI"];
       entries :=
         map (pageEntry readMdxFile)
             ["docs/allapi/OpenAI/gpt-4o/official-format/text-to-text-chat";
              "quickstart"] |} in
  totalDocs index = Z.of_nat (length (entries index))
  /\ ascending (vendors index)
  /\ NoDup (vendors index)
  /\ (forall v, In v (vendors index) <->
                v <> "" /\ exists e, In e (entries index) /\ vendor e = v)
  /\ parseDocsJson docsJson = Some (map path (entries index))
  /\ (forall e, In e (entries index) -> e = pageEntry readMdxFile (path e))
  /\ (NoDup (map path (entries index))
      <-> forall pages, parseDocsJson docsJson = Some pages -> NoDup pages).
Proof.
  intros docsJson readMdxFile index.
  apply (buildIndex_well_formed docsJson readMdxFile
           "2025-01-01T00:00:00.000Z" index).
  reflexivity.
Defined.

Lemma built_entry_guard (readMdxFile : string -> MdxData) (page : string) :
  (JS.truthy (vendor (pageEntry readMdxFile page))
   && String.eqb (category (pageEntry readMdxFile page)) "api")%bool
  = JS.truthy (vendor (pageEntry readMdxFile page)).
Proof.
  cbn [pageEntry vendor category].
  destruct (parsePathMetadata_facts page) as (_ & Hrest & _).
  destruct (String.eqb_spec (meta_category (parsePathMetadata page)) "api")
    as [Heq|Hne].
  - apply andb_true_r.
  - destruct (Hrest Hne) as (-> & _). reflexivity.
Qed.

(** X23. Builder and listing fit together: on an index written by
    [buildIndex], [listApis] without a vendor gives exactly one summary
    record for each vendor of the [vendors] list of the index and no
    other record. *)
Theorem built_index_lists_its_vendors (docsJson : JValue)
    (readMdxFile : string -> MdxData) (now : string) (index : DocsIndex) :
  buildIndex docsJson readMdxFile now = Some index ->
  list_vendors (listIn index None) = vendors index
  /\ NoDup (map api_vendor (list_apis (listIn index None)))
  /\ (forall v, In v (map api_vendor (list_apis (listIn index None)))
                <-> In v (vendors index))
  /\ length (list_apis (listIn index None)) = length (vendors index).
Proof.
  intros H.
  destruct (buildIndex_facts docsJson readMdxFile now index H)
    as (pages & _ & He & _ & _ & Hn & Hv).
  unfold listIn, listAllVendors. cbn [list_vendors list_apis].
  rewrite map_map. cbn [api_vendor].
  destruct (groupByVendor_grouped (entries index)) as (Hnd & Hkeys & _).
  assert (Hsame : forall v, In v (map fst (groupByVendor (entries index)))
                            <-> In v (vendors index)).
  { intros v. rewrite Hkeys, Hv. split.
    - intros (e & Hin & <-). apply filter_In in Hin. destruct Hin as [Hin Hg].
      apply andb_true_iff in Hg. destruct Hg as [Hg _].
      split; [apply truthy_iff; exact Hg|]. eauto.
    - intros (Hne & e & Hin & <-). exists e. split; [|reflexivity].
      apply filter_In. split; [exact Hin|].
      rewrite He in Hin. apply in_map_iff in Hin.
      destruct Hin as (page & <- & _).
      rewrite built_entry_guard. apply truthy_iff. exact Hne. }
  split; [reflexivity|]. split; [exact Hnd|]. split; [exact Hsame|].
  rewrite length_map, <- (length_map fst).
  apply Permutation_length. apply NoDup_Permutation; assumption.
Qed.

Lemma built_index_lists_its_vendors_witness :
  let docsJson :=
    VObject [("navigation",
              VArray [VString "docs/allapi/OpenAI/gpt-4o/official-format/text-to-text-chat";
                      VString "docs/guide/codex"])] in
  let readMdxFile := fun _ : string =>
    {| mdx_title := ""; mdx_description := ""; mdx_content := "" |} in
  let index :=
    {| version := "1.0.0"; generatedAt := "2025-01-01T00:00:00.000Z";
       totalDocs := 2; vendors := ["OpenAI"];
       entries :=
         map (pageEntry readMdxFile)
             ["docs/allapi/OpenAI/gpt-4o/official-format/text-to-text-chat";
              "docs/guide/codex"] |} in
  list_vendors (listIn index None) = vendors index
  /\ NoDup (map api_vendor (list_apis (listIn index None)))
  /\ (forall v, In v (map api_vendor (list_apis (listIn index None)))
                <-> In v (vendors index))
  /\ length (list_apis (listIn index None)) = length (vendors index).
Proof.
  intros docsJson readMdxFile index.
  apply (built_index_lists_its_vendors docsJson readMdxFile
           "2025-01-01T00:00:00.000Z" index).
  reflexivity.
Defined.

Lemma extractPages_object (fields : list (string * JValue)) :
  extractPages (VObject fields)
  = (fieldPages "pages" fields ++ fieldPages "groups" fields
     ++ fieldPages "tabs" fields)%list.
Proof. reflexivity. Qed.

Lemma fieldPages_filter (key : string) (fields : list (string * JValue)) :
  navigationKey key = true ->
  fieldPages key (filter (fun kv => navigationKey (fst kv)) fields)
  = fieldPages key fields.
Proof.
  intros Hkey. induction fields as [|[k v] fields IH]; [reflexivity|].
  cbn [filter fst]. destruct (navigationKey k) eqn:Hk.
  - cbn [fieldPages]. rewrite IH. reflexivity.
  - cbn [fieldPages]. destruct (String.eqb_spec k key) as [->|Hne];
      [congruence|exact IH].
Qed.

(** X24. Of an object of the navigation, [extractPages] only follows the
    keys [pages], [groups] and [tabs]: whatever stands under any other
    key is never indexed, and taking those other keys away changes
    nothing. A plain array of page names is returned as it stands. *)
Theorem extractPages_follows_three_keys (fields : list (string * JValue)) :
  extractPages (VObject fields)
  = extractPages (VObject (filter (fun kv => navigationKey (fst kv)) fields))
  /\ (forall other value,
        navigationKey other = false ->
        extractPages (VObject ((other, value) :: fields))
        = extractPages (VObject fields))
  /\ (forall names, extractPages (VArray (map VString names)) = names).
Proof.
  split; [|split].
  - rewrite !extractPages_object, !fieldPages_filter by reflexivity.
    reflexivity.
  - intros other value Hother. rewrite !extractPages_object.
    unfold navigationKey in Hother.
    apply orb_false_iff in Hother. destruct Hother as [Hother Ht].
    apply orb_false_iff in Hother. destruct Hother as [Hp Hg].
    cbn [fieldPages]. rewrite Hp, Hg, Ht. reflexivity.
  - intros names. cbn [extractPages].
    induction names as [|n names IH]; [reflexivity|].
    cbn [map flat_map extractPages app]. rewrite IH. reflexivity.
Qed.

(** ** The disk cache across a restart *)

(** X25. The index written to the per-user cache file is read back as it
    was fetched: when a refresh gets an index and the write goes through,
    a process started afterwards on the disk it left, with the network
    down, gets that same index from [loadIndex], and from [loadIndexSync]
    too, whatever the bundled file holds. *)
Theorem fetched_index_survives_restart (env env2 : Env) (w : World)
    (index : DocsIndex) :
  stale env w ->
  fetchResult env = Status true (JsonText (JDoc index)) ->
  persisted env w = true ->
  fetchFails env2 ->
  let w1 := worldOf (loadIndex env w) in
  let w2 := initialWorld (cacheDir w1) (cacheFile w1) (bundledFile w1) in
  cacheFile w1 = Readable (JsonText (JDoc index))
  /\ outcomeOf (loadIndex env2 w2) = Ret index
  /\ outcomeOf (loadIndexSync w2) = Ret index.
Proof.
  intros Hs Hfetch Hp Hfail w1 w2.
  assert (Hfile : cacheFile w1 = Readable (JsonText (JDoc index))).
  { destruct (fetchRemoteIndex_persist env w (JDoc index) Hfetch)
      as (w' & evs & Hf & _ & _ & _ & Hfile).
    rewrite Hp in Hfile.
    destruct (loadIndex_stale env w Hs) as (w0 & evs1 & evs2 & Hf0 & _ & Hl).
    assert (Hv : remoteValue env = JDoc index)
      by (unfold remoteValue; rewrite Hfetch; reflexivity).
    rewrite Hv in Hf0, Hl. rewrite Hf in Hf0. injection Hf0 as <- _.
    unfold w1. rewrite Hl. exact Hfile. }
  assert (Hd : diskValue w2 = JDoc index)
    by (unfold diskValue, w2; cbn; rewrite Hfile; reflexivity).
  split; [exact Hfile|]. split.
  - destruct (loadIndex_disk_fallback env2 w2 index) as (evs & -> & _);
      [left; reflexivity|exact Hfail|exact Hd|reflexivity].
  - destruct (loadIndexSync_spec w2) as (evs & ->).
    rewrite Hd. reflexivity.
Qed.

Lemma fetched_index_survives_restart_witness :
  let env := online 1700000000000 (JsonText (JDoc sampleIndex)) in
  let w := initialWorld false Missing (Readable (JsonText (JDoc oneEntryIndex))) in
  let w1 := worldOf (loadIndex env w) in
  let w2 := initialWorld (cacheDir w1) (cacheFile w1) (bundledFile w1) in
  cacheFile w1 = Readable (JsonText (JDoc sampleIndex))
  /\ outcomeOf (loadIndex (offline 1800000000000) w2) = Ret sampleIndex
  /\ outcomeOf (loadIndexSync w2) = Ret sampleIndex.
Proof.
  apply (fetched_index_survives_restart
           (online 1700000000000 (JsonText (JDoc sampleIndex)))
           (offline 1800000000000)
           (initialWorld false Missing (Readable (JsonText (JDoc oneEntryIndex))))
           sampleIndex).
  - left. reflexivity.
  - reflexivity.
  - reflexivity.
  - exact I.
Defined.
